(** * The pod-affinity mutating webhook: model and verification

    A shallow embedding of [pkg/mutatingwebhook/mutatingwebhook.go]: the
    admission path ([Admit], [mutatePodAffinity], [generateJsonPatch],
    [getPodAffinityValue]) and the reconcile path ([Reconcile],
    [reconcileMutatingWebhook]), followed by the properties the
    specification states about them.

    Go values are modelled as follows.  A [string] is its byte sequence
    (Rocq [string]); a [map[string]string] is a [gmap string string], wrapped
    in [option] where the code distinguishes the nil map; a pointer to a
    struct is an [option]; unsigned 32-bit words are [Z] with the wrap-around
    written out.

    A slice is a [list] where the nil slice and the empty slice cannot be told
    apart by what the code does with it: the JSON encoder with [omitempty]
    writes neither, and [range], [len] and [append] treat them alike.  The
    comparison of the reconciler ([kmp.SafeEqual], which is [cmp.Equal]) does
    tell them apart.  The slices and maps that it can see differ between the
    observed and the desired registration are therefore wrapped in [option],
    [None] for nil and [Some []] for empty: the CA bundle, which is assigned
    from the secret, and the members of a label selector, which is assigned
    from the result of a library call (see [SafeEqual]). *)

From Stdlib Require Import ZArith Ascii String List Lia.
From stdpp Require Import base option list gmap strings.

Local Set Warnings "-register-all".
Local Open Scope Z_scope.

(** ** SHA-256, the hash behind [crypto/sha256.Sum256]

    The source calls [sha256.Sum256] of the Go standard library, which
    implements the SHA-256 function of FIPS 180-4.  The definitions below follow
    the block function of that package ([blockGeneric]) and its padding
    ([checkSum]); words are numbers below [2^32]. *)
Module SHA256.

Definition chunk : nat := 64.

Definition mask32 : Z := 4294967295.

Definition wrap32 (x : Z) : Z := x mod 2 ^ 32.

Definition add32 (x y : Z) : Z := wrap32 (x + y).

(** [bits.RotateLeft32 x (-n)]: rotation to the right by [n] bits. *)
Definition rotr (n x : Z) : Z :=
  Z.lor (Z.shiftr x n) (wrap32 (Z.shiftl x (32 - n))).

Definition not32 (x : Z) : Z := Z.lxor x mask32.

Definition Ch (e f g : Z) : Z := Z.lxor (Z.land e f) (Z.land (not32 e) g).

Definition Maj (a b c : Z) : Z :=
  Z.lxor (Z.lxor (Z.land a b) (Z.land a c)) (Z.land b c).

Definition bigSigma0 (a : Z) : Z := Z.lxor (Z.lxor (rotr 2 a) (rotr 13 a)) (rotr 22 a).
Definition bigSigma1 (e : Z) : Z := Z.lxor (Z.lxor (rotr 6 e) (rotr 11 e)) (rotr 25 e).
Definition smallSigma0 (v : Z) : Z := Z.lxor (Z.lxor (rotr 7 v) (rotr 18 v)) (Z.shiftr v 3).
Definition smallSigma1 (v : Z) : Z := Z.lxor (Z.lxor (rotr 17 v) (rotr 19 v)) (Z.shiftr v 10).

(** The round constants [_K] (in decimal). *)
Definition _K : list Z :=
  [ 1116352408; 1899447441; 3049323471; 3921009573; 961987163; 1508970993;
    2453635748; 2870763221; 3624381080; 310598401; 607225278; 1426881987;
    1925078388; 2162078206; 2614888103; 3248222580; 3835390401; 4022224774;
    264347078; 604807628; 770255983; 1249150122; 1555081692; 1996064986;
    2554220882; 2821834349; 2952996808; 3210313671; 3336571891; 3584528711;
    113926993; 338241895; 666307205; 773529912; 1294757372; 1396182291;
    1695183700; 1986661051; 2177026350; 2456956037; 2730485921; 2820302411;
    3259730800; 3345764771; 3516065817; 3600352804; 4094571909; 275423344;
    430227734; 506948616; 659060556; 883997877; 958139571; 1322822218;
    1537002063; 1747873779; 1955562222; 2024104815; 2227730452; 2361852424;
    2428436474; 2756734187; 3204031479; 3329325298 ].

(** The eight chaining words of a digest. *)
Record digest : Type := Digest {
  h0 : Z; h1 : Z; h2 : Z; h3 : Z; h4 : Z; h5 : Z; h6 : Z; h7 : Z
}.

(** The initial value [init0 .. init7]. *)
Definition init : digest :=
  Digest 1779033703 3144134277 1013904242 2773480762
         1359893119 2600822924 528734635 1541459225.

(** Big-endian word of four bytes, and back. *)
Definition be32 (b0 b1 b2 b3 : Z) : Z :=
  Z.lor (Z.lor (Z.lor (Z.shiftl b0 24) (Z.shiftl b1 16)) (Z.shiftl b2 8)) b3.

Definition bytes_of_word (w : Z) : list Z :=
  [ Z.land (Z.shiftr w 24) 255; Z.land (Z.shiftr w 16) 255;
    Z.land (Z.shiftr w 8) 255; Z.land w 255 ].

(** The first sixteen schedule words: the block read as big-endian words. *)
Fixpoint words_of_block (n : nat) (p : list Z) : list Z :=
  match n with
  | O => []
  | S n' =>
      match p with
      | b0 :: b1 :: b2 :: b3 :: rest => be32 b0 b1 b2 b3 :: words_of_block n' rest
      | _ => []
      end
  end.

(** [w[i] = t1 + w[i-7] + t2 + w[i-16]] for [i = 16 .. 63]; [w] holds the
    words computed so far, [n] is how many remain. *)
Fixpoint extend_schedule (n : nat) (w : list Z) : list Z :=
  match n with
  | O => w
  | S n' =>
      let i := length w in
      let t1 := smallSigma1 (nth (i - 2) w 0) in
      let t2 := smallSigma0 (nth (i - 15) w 0) in
      let wi := add32 (add32 (add32 t1 (nth (i - 7) w 0)) t2) (nth (i - 16) w 0) in
      extend_schedule n' (w ++ [wi])
  end.

Definition schedule (p : list Z) : list Z :=
  extend_schedule 48 (words_of_block 16 p).

(** One of the sixty-four rounds on the working variables [a .. h]. *)
Definition round (s : digest) (kw : Z * Z) : digest :=
  let '(Digest a b c d e f g h) := s in
  let t1 := add32 (add32 (add32 (add32 h (bigSigma1 e)) (Ch e f g)) (fst kw)) (snd kw) in
  let t2 := add32 (bigSigma0 a) (Maj a b c) in
  Digest (add32 t1 t2) a b c (add32 d t1) e f g.

(** [blockGeneric] on one 64-byte chunk. *)
Definition block (dig : digest) (p : list Z) : digest :=
  let s := fold_left round (combine _K (schedule p)) dig in
  Digest (add32 (h0 dig) (h0 s)) (add32 (h1 dig) (h1 s))
         (add32 (h2 dig) (h2 s)) (add32 (h3 dig) (h3 s))
         (add32 (h4 dig) (h4 s)) (add32 (h5 dig) (h5 s))
         (add32 (h6 dig) (h6 s)) (add32 (h7 dig) (h7 s)).

(** The loop [for len(p) >= chunk] over [n] chunks. *)
Fixpoint blocks (n : nat) (dig : digest) (p : list Z) : digest :=
  match n with
  | O => dig
  | S n' => blocks n' (block dig (firstn chunk p)) (skipn chunk p)
  end.

(** The bit length as eight big-endian bytes ([uint64], so modulo [2^64]). *)
Definition length_bytes (len : Z) : list Z :=
  let bits := (len * 8) mod 2 ^ 64 in
  map (fun k => Z.land (Z.shiftr bits (8 * k)) 255) [7; 6; 5; 4; 3; 2; 1; 0].

(** [checkSum]'s padding: [0x80], zeros up to 56 modulo 64, the length. *)
Definition padding (len : Z) : list Z :=
  let r := len mod 64 in
  let t := if r <? 56 then 56 - r else 64 + 56 - r in
  128 :: repeat 0 (Z.to_nat (t - 1)) ++ length_bytes len.

Definition Sum256 (data : list Z) : list Z :=
  let p := data ++ padding (Z.of_nat (length data)) in
  let d := blocks (Nat.div (length p) chunk) init p in
  bytes_of_word (h0 d) ++ bytes_of_word (h1 d) ++ bytes_of_word (h2 d) ++
  bytes_of_word (h3 d) ++ bytes_of_word (h4 d) ++ bytes_of_word (h5 d) ++
  bytes_of_word (h6 d) ++ bytes_of_word (h7 d).

End SHA256.

(** ** Strings as bytes, and [fmt.Sprintf] with [%x] *)

(** [[]byte(s)]: the bytes of a Go string. *)
Definition bytes_of_string (s : string) : list Z :=
  map (fun c => Z.of_N (N_of_ascii c)) (list_ascii_of_string s).

Definition hex_digit (n : Z) : ascii :=
  if n <? 10 then ascii_of_N (Z.to_N (48 + n)) else ascii_of_N (Z.to_N (87 + n)).

(** [fmt.Sprintf("%x", b)] for a byte array: two lower-case digits per byte. *)
Fixpoint hex_encode (b : list Z) : string :=
  match b with
  | [] => EmptyString
  | x :: rest =>
      String (hex_digit (Z.shiftr x 4)) (String (hex_digit (Z.land x 15)) (hex_encode rest))
  end.

(** ** AffinityDeriver: [getPodAffinityValue] *)

(** [getPodAffinityValue], lines 315-319.  [hashString[:10]] is the slice of
    the first ten bytes; it is in range because [hashString] has 64 bytes
    (lemma [hex_Sum256_length]). *)
Definition getPodAffinityValue (pipelineRunName : string) : string :=
  let hashBytes := SHA256.Sum256 (bytes_of_string pipelineRunName) in
  let hashString := hex_encode hashBytes in
  "custom-pod-affinity" +:+ "-" +:+ substring 0 10 hashString.

(** The specification's wording of the derivation (section 4.4): the constant
    prefix [custom-pod-affinity-] followed by the first ten characters of the
    hex encoding of the hash of the identifier's bytes. *)
Definition hex_prefix (n : nat) (s : string) : string :=
  string_of_list_ascii (firstn n (list_ascii_of_string s)).

Definition Derive_spec (workflowID : string) : string :=
  "custom-pod-affinity-" +:+
  hex_prefix 10 (hex_encode (SHA256.Sum256 (bytes_of_string workflowID))).


(** ** Kubernetes API types

    The types of [k8s.io/api] and [k8s.io/apimachinery] are declared outside
    this repository.  The records below carry the fields this package reads
    or writes, and the neighbouring fields of the same structs that the
    affinity merge has to leave alone; fields of a record are prefixed with a
    tag of their struct.  Fields left out are never touched by this package:
    [DeepCopy] copies them and they are equal in the origin and the target of a
    diff. *)

(** [metav1.LabelSelectorRequirement]; the operator is a Go string type.
    [Values] is [None] for the nil slice. *)
Record LabelSelectorRequirement : Type := {
  req_Key : string;
  req_Operator : string;
  req_Values : option (list string)
}.

Definition LabelSelectorOpDoesNotExist : string := "DoesNotExist".

(** [metav1.LabelSelector].  [MatchLabels] and [MatchExpressions] are [None]
    for the nil map and the nil slice. *)
Record LabelSelector : Type := {
  ls_MatchLabels : option (gmap string string);
  ls_MatchExpressions : option (list LabelSelectorRequirement)
}.

(** [metav1.OwnerReference]. *)
Record OwnerReference : Type := {
  own_APIVersion : string;
  own_Kind : string;
  own_Name : string;
  own_UID : string;
  own_Controller : option bool;
  own_BlockOwnerDeletion : option bool
}.

(** [metav1.ObjectMeta], embedded in pods, namespaces and webhook
    configurations.  [Labels] and [Annotations] are [None] for the nil map. *)
Record ObjectMeta : Type := {
  meta_Name : string;
  meta_UID : string;
  meta_Labels : option (gmap string string);
  meta_Annotations : option (gmap string string);
  meta_OwnerReferences : list OwnerReference
}.

(** [corev1.PodAffinityTerm]. *)
Record PodAffinityTerm : Type := {
  term_LabelSelector : option LabelSelector;
  term_Namespaces : list string;
  term_TopologyKey : string
}.

(** [corev1.WeightedPodAffinityTerm]. *)
Record WeightedPodAffinityTerm : Type := {
  wterm_Weight : Z;
  wterm_PodAffinityTerm : PodAffinityTerm
}.

(** [corev1.PodAffinity]. *)
Record PodAffinity : Type := {
  pa_RequiredDuringSchedulingIgnoredDuringExecution : list PodAffinityTerm;
  pa_PreferredDuringSchedulingIgnoredDuringExecution : list WeightedPodAffinityTerm
}.

(** [corev1.PodAntiAffinity]. *)
Record PodAntiAffinity : Type := {
  paa_RequiredDuringSchedulingIgnoredDuringExecution : list PodAffinityTerm;
  paa_PreferredDuringSchedulingIgnoredDuringExecution : list WeightedPodAffinityTerm
}.

(** [corev1.Affinity]: pointers to the pod affinity and anti-affinity. *)
Record Affinity : Type := {
  aff_PodAffinity : option PodAffinity;
  aff_PodAntiAffinity : option PodAntiAffinity
}.

(** [corev1.PodSpec]. *)
Record PodSpec : Type := {
  spec_Affinity : option Affinity;
  spec_NodeName : string
}.

(** [corev1.Pod]. *)
Record Pod : Type := {
  pod_ObjectMeta : ObjectMeta;
  pod_Spec : PodSpec
}.

(** The zero values [var pod corev1.Pod] and [&corev1.Affinity{}] start from. *)
Definition zeroObjectMeta : ObjectMeta :=
  {| meta_Name := ""; meta_UID := ""; meta_Labels := None;
     meta_Annotations := None; meta_OwnerReferences := [] |}.

Definition zeroPod : Pod :=
  {| pod_ObjectMeta := zeroObjectMeta;
     pod_Spec := {| spec_Affinity := None; spec_NodeName := "" |} |}.

Definition zeroAffinity : Affinity :=
  {| aff_PodAffinity := None; aff_PodAntiAffinity := None |}.

Definition zeroPodAffinity : PodAffinity :=
  {| pa_RequiredDuringSchedulingIgnoredDuringExecution := [];
     pa_PreferredDuringSchedulingIgnoredDuringExecution := [] |}.

(** [m[k]] with the comma-ok form: a nil map has no key. *)
Definition map_get (m : option (gmap string string)) (k : string) : option string :=
  match m with
  | None => None
  | Some m' => m' !! k
  end.

(** [pod.Labels], [p.Annotations]: fields promoted from the embedded
    [ObjectMeta]. *)
Definition pod_Labels (p : Pod) : option (gmap string string) :=
  meta_Labels (pod_ObjectMeta p).

Definition pod_Annotations (p : Pod) : option (gmap string string) :=
  meta_Annotations (pod_ObjectMeta p).

Definition set_Labels (p : Pod) (l : option (gmap string string)) : Pod :=
  let m := pod_ObjectMeta p in
  {| pod_ObjectMeta :=
       {| meta_Name := meta_Name m; meta_UID := meta_UID m; meta_Labels := l;
          meta_Annotations := meta_Annotations m;
          meta_OwnerReferences := meta_OwnerReferences m |};
     pod_Spec := pod_Spec p |}.

Definition set_Affinity (p : Pod) (a : option Affinity) : Pod :=
  {| pod_ObjectMeta := pod_ObjectMeta p;
     pod_Spec := {| spec_Affinity := a; spec_NodeName := spec_NodeName (pod_Spec p) |} |}.

(** Constants of [github.com/tektoncd/pipeline/pkg/workspace], a package
    outside this repository: the annotation marking that an affinity assistant
    exists, and the label naming its instance. *)
Definition AnnotationAffinityAssistantName : string :=
  "pipeline.tekton.dev/affinity-assistant".

Definition LabelInstance : string := "app.kubernetes.io/instance".

(** ** The affinity merge, lines 276-313 *)

(** [podAffinityTermUsingAffinityAssistant], lines 304-313. *)
Definition podAffinityTermUsingAffinityAssistant (affinityAssistantName : string)
  : PodAffinityTerm :=
  {| term_LabelSelector :=
       Some {| ls_MatchLabels := Some {[ LabelInstance := affinityAssistantName ]};
               ls_MatchExpressions := None |};
     term_Namespaces := [];
     term_TopologyKey := "kubernetes.io/hostname" |}.

(** [mergeAffinityWithAffinityAssistant], lines 292-302: the pointer argument
    is updated in place; here the updated [Affinity] is returned. *)
Definition mergeAffinityWithAffinityAssistant (affinity : Affinity)
    (podAffinityName : string) : Affinity :=
  let podAffinityTerm := podAffinityTermUsingAffinityAssistant podAffinityName in
  let podAffinity :=
    match aff_PodAffinity affinity with
    | None => zeroPodAffinity
    | Some pa => pa
    end in
  {| aff_PodAffinity :=
       Some {| pa_RequiredDuringSchedulingIgnoredDuringExecution :=
                 pa_RequiredDuringSchedulingIgnoredDuringExecution podAffinity
                 ++ [podAffinityTerm];
               pa_PreferredDuringSchedulingIgnoredDuringExecution :=
                 pa_PreferredDuringSchedulingIgnoredDuringExecution podAffinity |};
     aff_PodAntiAffinity := aff_PodAntiAffinity affinity |}.

(** [mutatePodAffinity], lines 276-290: the pod behind the pointer [p] after
    the call. *)
Definition mutatePodAffinity (p : Pod) (pipelineRunName : string) : Pod :=
  match map_get (pod_Annotations p) AnnotationAffinityAssistantName with
  | Some _ => p
  | None =>
      let affinity :=
        match spec_Affinity (pod_Spec p) with
        | None => zeroAffinity
        | Some a => a
        end in
      let podAffinityName := getPodAffinityValue pipelineRunName in
      set_Affinity p (Some (mergeAffinityWithAffinityAssistant affinity podAffinityName))
  end.

(** ** JSON documents and JSON Patch

    [generateJsonPatch] serializes both pods with [encoding/json] and hands the
    two documents to [jsonpatch.CreatePatch]; documents are modelled after
    parsing, as trees.  An object is a finite map from member names to values,
    so two documents are semantically equal exactly when they are equal. *)
Inductive json : Type :=
  | JNull
  | JBool (b : bool)
  | JNum (n : Z)
  | JStr (s : string)
  | JArr (l : list json)
  | JObj (m : gmap string json).

(** Equality of documents, computed. *)
Fixpoint jeqb (a b : json) : bool :=
  match a, b with
  | JNull, JNull => true
  | JBool x, JBool y => bool_decide (x = y)
  | JNum x, JNum y => bool_decide (x = y)
  | JStr x, JStr y => bool_decide (x = y)
  | JArr la, JArr lb =>
      (fix go (la lb : list json) : bool :=
         match la, lb with
         | [], [] => true
         | x :: la', y :: lb' => jeqb x y && go la' lb'
         | _, _ => false
         end) la lb
  | JObj ma, JObj mb =>
      bool_decide (dom ma = dom mb) &&
      map_fold (fun k av acc =>
                  match mb !! k with
                  | Some bv => jeqb av bv
                  | None => false
                  end && acc) true ma
  | _, _ => false
  end.

(** The size of a document, the measure of the inductions below. *)
Fixpoint jsize (j : json) : nat :=
  match j with
  | JArr l => S (foldr (fun x acc => (jsize x + acc)%nat) O l)
  | JObj m => S (map_fold (fun _ x acc => (jsize x + acc)%nat) O m)
  | _ => 1%nat
  end.

(** A JSON Pointer (RFC 6901) as its list of reference tokens: [/spec/affinity]
    is [["spec"; "affinity"]], the whole document is [[]]. *)
Definition Pointer : Type := list string.

(** The operations of RFC 6902. *)
Inductive Operation : Type :=
  | Add (path : Pointer) (value : json)
  | Remove (path : Pointer)
  | Replace (path : Pointer) (value : json)
  | Move (from path : Pointer)
  | Copy (from path : Pointer)
  | Test (path : Pointer) (value : json).

Definition is_digit (c : ascii) : bool :=
  let n := N_of_ascii c in ((48 <=? n) && (n <=? 57))%N.

Fixpoint digits_value (acc : nat) (s : string) : option nat :=
  match s with
  | EmptyString => Some acc
  | String c rest =>
      if is_digit c
      then digits_value (10 * acc + (N.to_nat (N_of_ascii c) - 48))%nat rest
      else None
  end.

(** An array index token: decimal digits without a leading zero. *)
Definition index_of_token (s : string) : option nat :=
  match s with
  | EmptyString => None
  | String "0"%char EmptyString => Some O
  | String "0"%char _ => None
  | _ => digits_value O s
  end.

(** The value a pointer refers to. *)
Fixpoint get (p : Pointer) (doc : json) : option json :=
  match p with
  | [] => Some doc
  | k :: rest =>
      match doc with
      | JObj m => m !! k ≫= get rest
      | JArr l => index_of_token k ≫= fun i => l !! i ≫= get rest
      | _ => None
      end
  end.

(** Descend along all tokens but the last, and run [f] with the last token on
    the container reached there. *)
Fixpoint at_parent (f : string -> json -> option json) (p : Pointer) (doc : json)
  : option json :=
  match p with
  | [] => None
  | [k] => f k doc
  | k :: rest =>
      match doc with
      | JObj m =>
          m !! k ≫= fun c => at_parent f rest c ≫= fun c' => Some (JObj (<[k := c']> m))
      | JArr l =>
          index_of_token k ≫= fun i =>
          l !! i ≫= fun c => at_parent f rest c ≫= fun c' => Some (JArr (<[i := c']> l))
      | _ => None
      end
  end.

Definition add_child (v : json) (k : string) (doc : json) : option json :=
  match doc with
  | JObj m => Some (JObj (<[k := v]> m))
  | JArr l =>
      if bool_decide (k = "-") then Some (JArr (l ++ [v]))
      else index_of_token k ≫= fun i =>
           if bool_decide (i <= length l)%nat
           then Some (JArr (take i l ++ v :: drop i l)) else None
  | _ => None
  end.

Definition remove_child (k : string) (doc : json) : option json :=
  match doc with
  | JObj m => m !! k ≫= fun _ => Some (JObj (delete k m))
  | JArr l => index_of_token k ≫= fun i => l !! i ≫= fun _ => Some (JArr (delete i l))
  | _ => None
  end.

Definition replace_child (v : json) (k : string) (doc : json) : option json :=
  match doc with
  | JObj m => m !! k ≫= fun _ => Some (JObj (<[k := v]> m))
  | JArr l => index_of_token k ≫= fun i => l !! i ≫= fun _ => Some (JArr (<[i := v]> l))
  | _ => None
  end.

Definition add_at (p : Pointer) (v : json) (doc : json) : option json :=
  match p with
  | [] => Some v
  | _ => at_parent (add_child v) p doc
  end.

Definition remove_at (p : Pointer) (doc : json) : option json :=
  at_parent remove_child p doc.

Definition replace_at (p : Pointer) (v : json) (doc : json) : option json :=
  match p with
  | [] => Some v
  | _ => at_parent (replace_child v) p doc
  end.

(** One operation applied to a document; [None] when RFC 6902 makes it an
    error (a missing target or parent, a failed test). *)
Definition apply_op (o : Operation) (doc : json) : option json :=
  match o with
  | Add p v => add_at p v doc
  | Remove p => remove_at p doc
  | Replace p v => replace_at p v doc
  | Move from p => get from doc ≫= fun v => remove_at from doc ≫= add_at p v
  | Copy from p => get from doc ≫= fun v => add_at p v doc
  | Test p v => get p doc ≫= fun v' => if jeqb v' v then Some doc else None
  end.

(** The operations of a patch applied in order. *)
Fixpoint apply_patch (ops : list Operation) (doc : json) : option json :=
  match ops with
  | [] => Some doc
  | o :: rest => apply_op o doc ≫= apply_patch rest
  end.

(** Modelled from the spec: [jsonpatch.CreatePatch] of
    [gomodules.xyz/jsonpatch/v2], the PatchGenerator of section 4.3, is called
    at line 263 and its code is not part of the repository.  The specification
    asks for an ordered sequence of operations at JSON-Pointer paths with the
    semantics of JSON Patch.  [diff] compares two documents member by member:
    where both sides hold an object it descends into the members they share,
    removes the members only the origin has and adds the members only the target
    has; any other pair of unequal values is replaced by the target's value.
    [p] is the pointer of the values compared. *)
Fixpoint diff (p : Pointer) (a b : json) {struct a} : list Operation :=
  match a, b with
  | JObj ma, JObj mb =>
      map_fold (fun k av acc =>
                  match mb !! k with
                  | Some bv => diff (p ++ [k]) av bv
                  | None => [Remove (p ++ [k])]
                  end ++ acc) [] ma
      ++ map_fold (fun k bv acc =>
                     match ma !! k with
                     | Some _ => acc
                     | None => Add (p ++ [k]) bv :: acc
                     end) [] mb
  | _, _ => if jeqb a b then [] else [Replace p b]
  end.

Definition CreatePatch (a b : json) : list Operation := diff [] a b.

(** ** The JSON encoding of a pod

    [json.NewEncoder(..).Encode] follows the [json] tags of the API structs: a
    member tagged [omitempty] is left out when its value is a nil pointer, an
    empty map, slice or string.  Members of fields the records above leave out
    ([kind], [creationTimestamp], [containers], ...) are the same in the origin
    and the target and are not written. *)
Definition members (fields : list (string * option json)) : gmap string json :=
  foldr (fun f m => match f.2 with
                    | Some v => <[f.1 := v]> m
                    | None => m
                    end) ∅ fields.

Definition obj (fields : list (string * option json)) : json := JObj (members fields).

Definition enc_string (s : string) : option json :=
  if bool_decide (s = "") then None else Some (JStr s).

Definition enc_strings (l : list string) : option json :=
  match l with
  | [] => None
  | _ => Some (JArr (map JStr l))
  end.

Definition enc_map (m : gmap string string) : option json :=
  if bool_decide (m = ∅) then None else Some (JObj (JStr <$> m)).

Definition enc_opt_map (m : option (gmap string string)) : option json :=
  m ≫= enc_map.

Definition enc_list {A : Type} (f : A -> json) (l : list A) : option json :=
  match l with
  | [] => None
  | _ => Some (JArr (map f l))
  end.

Definition encodeLabelSelectorRequirement (r : LabelSelectorRequirement) : json :=
  obj [ ("key", Some (JStr (req_Key r)));
        ("operator", Some (JStr (req_Operator r)));
        ("values", req_Values r ≫= enc_strings) ].

Definition encodeLabelSelector (s : LabelSelector) : json :=
  obj [ ("matchLabels", enc_opt_map (ls_MatchLabels s));
        ("matchExpressions",
         ls_MatchExpressions s ≫= enc_list encodeLabelSelectorRequirement) ].

Definition encodeOwnerReference (o : OwnerReference) : json :=
  obj [ ("apiVersion", Some (JStr (own_APIVersion o)));
        ("kind", Some (JStr (own_Kind o)));
        ("name", Some (JStr (own_Name o)));
        ("uid", Some (JStr (own_UID o)));
        ("controller", JBool <$> own_Controller o);
        ("blockOwnerDeletion", JBool <$> own_BlockOwnerDeletion o) ].

Definition encodeObjectMeta (m : ObjectMeta) : json :=
  obj [ ("name", enc_string (meta_Name m));
        ("uid", enc_string (meta_UID m));
        ("labels", enc_opt_map (meta_Labels m));
        ("annotations", enc_opt_map (meta_Annotations m));
        ("ownerReferences", enc_list encodeOwnerReference (meta_OwnerReferences m)) ].

Definition encodePodAffinityTerm (t : PodAffinityTerm) : json :=
  obj [ ("labelSelector", encodeLabelSelector <$> term_LabelSelector t);
        ("namespaces", enc_strings (term_Namespaces t));
        ("topologyKey", Some (JStr (term_TopologyKey t))) ].

Definition encodeWeightedPodAffinityTerm (w : WeightedPodAffinityTerm) : json :=
  obj [ ("weight", Some (JNum (wterm_Weight w)));
        ("podAffinityTerm", Some (encodePodAffinityTerm (wterm_PodAffinityTerm w))) ].

Definition encodePodAffinity (a : PodAffinity) : json :=
  obj [ ("requiredDuringSchedulingIgnoredDuringExecution",
         enc_list encodePodAffinityTerm
           (pa_RequiredDuringSchedulingIgnoredDuringExecution a));
        ("preferredDuringSchedulingIgnoredDuringExecution",
         enc_list encodeWeightedPodAffinityTerm
           (pa_PreferredDuringSchedulingIgnoredDuringExecution a)) ].

Definition encodePodAntiAffinity (a : PodAntiAffinity) : json :=
  obj [ ("requiredDuringSchedulingIgnoredDuringExecution",
         enc_list encodePodAffinityTerm
           (paa_RequiredDuringSchedulingIgnoredDuringExecution a));
        ("preferredDuringSchedulingIgnoredDuringExecution",
         enc_list encodeWeightedPodAffinityTerm
           (paa_PreferredDuringSchedulingIgnoredDuringExecution a)) ].

Definition encodeAffinity (a : Affinity) : json :=
  obj [ ("podAffinity", encodePodAffinity <$> aff_PodAffinity a);
        ("podAntiAffinity", encodePodAntiAffinity <$> aff_PodAntiAffinity a) ].

Definition encodePodSpec (s : PodSpec) : json :=
  obj [ ("affinity", encodeAffinity <$> spec_Affinity s);
        ("nodeName", enc_string (spec_NodeName s)) ].

Definition encodePod (p : Pod) : json :=
  obj [ ("metadata", Some (encodeObjectMeta (pod_ObjectMeta p)));
        ("spec", Some (encodePodSpec (pod_Spec p)));
        ("status", Some (JObj ∅)) ].

(** [generateJsonPatch], lines 256-274.  Both encodings succeed on a pod, and
    the two error branches (lines 264 and 269) only print; the result is the
    patch, whose bytes are its [json.Marshal] form. *)
Definition generateJsonPatch (origin target : Pod) : list Operation :=
  let targetBytes := encodePod target in
  let originBytes := encodePod origin in
  CreatePatch originBytes targetBytes.

(** ** The admission path: [Admit], lines 210-245 *)

(** [schema.GroupVersionKind]. *)
Record GroupVersionKind : Type := {
  gvk_Group : string; gvk_Version : string; gvk_Kind : string
}.

(** [admissionv1.AdmissionRequest]: the request's identifier and the raw bytes
    of the object ([request.Object.Raw]). *)
Record AdmissionRequest : Type := {
  areq_UID : string;
  areq_Object_Raw : list Z
}.

(** [metav1.Status], the reason a response carries when it denies. *)
Record Status : Type := {
  status_Message : string;
  status_Code : Z
}.

Inductive PatchType : Type := PatchTypeJSONPatch.

(** [admissionv1.AdmissionResponse]; [aresp_Patch] is the patch whose
    serialization the [Patch] bytes are. *)
Record AdmissionResponse : Type := {
  aresp_Allowed : bool;
  aresp_Result : option Status;
  aresp_Patch : list Operation;
  aresp_PatchType : option PatchType
}.

(** The deserializer [codecs.UniversalDeserializer()] of the package-level
    codec factory.  [Decode data defaults into] writes what it decodes into the
    object [into] points to and reports an error or none: the result is the
    object behind [into] after the call, and the error. *)
Record Decoder : Type := {
  Decode : list Z -> GroupVersionKind -> Pod -> Pod * option string
}.

(** [gvkPod], line 219: [corev1.SchemeGroupVersion.WithKind("Pod")]. *)
Definition gvkPod : GroupVersionKind :=
  {| gvk_Group := ""; gvk_Version := "v1"; gvk_Kind := "Pod" |}.

(** [Admit].  The three results of [Decode] are discarded at line 221: the
    code goes on with whatever the call left in [pod].  [DeepCopy] is the
    value itself.  The context and the logger do not enter the response. *)
Definition Admit (codecs : Decoder) (request : AdmissionRequest) : AdmissionResponse :=
  let pod := fst (Decode codecs (areq_Object_Raw request) gvkPod zeroPod) in
  let cpPod := pod in
  let pod :=
    match map_get (pod_Labels pod) "tekton.dev/pipelineRun" with
    | Some pr => mutatePodAffinity pod pr
    | None => pod
    end in
  let labels :=
    match pod_Labels pod with
    | None => ∅
    | Some l => l
    end in
  let pod := set_Labels pod (Some (<["QuanTest" := "hello1"]> labels)) in
  let jp := generateJsonPatch cpPod pod in
  {| aresp_Patch := jp;
     aresp_Allowed := true;
     aresp_Result := None;
     aresp_PatchType := Some PatchTypeJSONPatch |}.

(** ** The registration and its store: types of the reconcile path *)

(** [admissionregistrationv1.Rule] and [RuleWithOperations]; operation types
    are Go strings. *)
Record Rule : Type := {
  rule_APIGroups : list string;
  rule_APIVersions : list string;
  rule_Resources : list string;
  rule_Scope : option string
}.

Record RuleWithOperations : Type := {
  rwo_Operations : list string;
  rwo_Rule : Rule
}.

Definition Create : string := "CREATE".
Definition IfNeededReinvocationPolicy : string := "IfNeeded".

(** [admissionregistrationv1.ServiceReference]. *)
Record ServiceReference : Type := {
  svc_Namespace : string;
  svc_Name : string;
  svc_Path : option string;
  svc_Port : option Z
}.

(** [admissionregistrationv1.WebhookClientConfig].  [CABundle] is [None] for
    the nil slice and [Some []] for the empty one. *)
Record WebhookClientConfig : Type := {
  cc_URL : option string;
  cc_Service : option ServiceReference;
  cc_CABundle : option (list Z)
}.

(** [admissionregistrationv1.MutatingWebhook]. *)
Record MutatingWebhook : Type := {
  wh_Name : string;
  wh_ClientConfig : WebhookClientConfig;
  wh_Rules : list RuleWithOperations;
  wh_FailurePolicy : option string;
  wh_NamespaceSelector : option LabelSelector;
  wh_ObjectSelector : option LabelSelector;
  wh_SideEffects : option string;
  wh_AdmissionReviewVersions : list string;
  wh_ReinvocationPolicy : option string
}.

(** [admissionregistrationv1.MutatingWebhookConfiguration], the Registration. *)
Record MutatingWebhookConfiguration : Type := {
  mwc_ObjectMeta : ObjectMeta;
  mwc_Webhooks : list MutatingWebhook
}.

(** [corev1.Secret] and [corev1.Namespace].  A key of [Data] may hold the nil
    slice ([None]) or an empty one; a nil [Data] has no key. *)
Record Secret : Type := { secret_Data : gmap string (option (list Z)) }.

Record Namespace : Type := { ns_ObjectMeta : ObjectMeta }.

#[global] Instance LabelSelectorRequirement_eq_dec : EqDecision LabelSelectorRequirement.
Proof. solve_decision. Defined.
#[global] Instance LabelSelector_eq_dec : EqDecision LabelSelector.
Proof. solve_decision. Defined.
#[global] Instance OwnerReference_eq_dec : EqDecision OwnerReference.
Proof. solve_decision. Defined.
#[global] Instance ObjectMeta_eq_dec : EqDecision ObjectMeta.
Proof. solve_decision. Defined.
#[global] Instance Rule_eq_dec : EqDecision Rule.
Proof. solve_decision. Defined.
#[global] Instance RuleWithOperations_eq_dec : EqDecision RuleWithOperations.
Proof. solve_decision. Defined.
#[global] Instance ServiceReference_eq_dec : EqDecision ServiceReference.
Proof. solve_decision. Defined.
#[global] Instance WebhookClientConfig_eq_dec : EqDecision WebhookClientConfig.
Proof. solve_decision. Defined.
#[global] Instance MutatingWebhook_eq_dec : EqDecision MutatingWebhook.
Proof. solve_decision. Defined.
#[global] Instance MutatingWebhookConfiguration_eq_dec :
  EqDecision MutatingWebhookConfiguration.
Proof. solve_decision. Defined.

(** The errors [Reconcile] returns, one constructor per place that makes one. *)
Inductive error : Type :=
  | SkipKey (key : string)
      (* controller.NewSkipKey(key), line 123 *)
  | External (msg : string)
      (* an error a collaborator returned: a lister or the client *)
  | MissingKey (secretName key : string)
      (* "secret %q is missing %q key", line 134 *)
  | RetrievingWebhook (err : error)
      (* "error retrieving webhook: %w", line 156 *)
  | FetchNamespace (err : error)
      (* "failed to fetch namespace: %w", line 163 *)
  | MissingServiceReference (name : string)
      (* "missing service reference for webhook: %s", line 187 *)
  | DiffingWebhooks (err : error)
      (* "error diffing webhooks: %w", line 195 *)
  | UpdatingWebhook (err : error)
      (* "failed to update webhook: %w", line 200 *).

(** [controller.IsSkipKey]: the skip signal is told apart from failures. *)
Definition IsSkipKey (e : error) : bool :=
  match e with
  | SkipKey _ => true
  | _ => false
  end.

Inductive result (A : Type) : Type :=
  | Ok (a : A)
  | Err (e : error).
Arguments Ok {A} a.
Arguments Err {A} e.

(** A call issued on a collaborator: the secret lister, the registration
    lister, the namespace client, and the registration client's [Update] with
    the document sent and whether the store took it. *)
Inductive Event : Type :=
  | EvGetSecret (name : string)
  | EvGetWebhook (name : string)
  | EvGetNamespace
  | EvUpdate (doc : MutatingWebhookConfiguration) (accepted : bool).

(** What [Reconcile] runs against: the leadership of this replica for
    [ac.key], the secrets of the system namespace, the registrations (found by
    their own name), what the cluster answers to the namespace read and to an
    update, and the calls issued so far, the latest first.  The lister and the
    client see the same registrations: the informer cache is taken to be in
    step with the store, which is what "no intervening external change" between
    two runs amounts to. *)
Record World : Type := {
  w_isLeader : bool;
  w_secrets : gmap string Secret;
  w_webhooks : list MutatingWebhookConfiguration;
  w_namespace : result Namespace;
  w_updateError : option string;
  w_events : list Event
}.

Definition mwc_Name (c : MutatingWebhookConfiguration) : string :=
  meta_Name (mwc_ObjectMeta c).

(** Get by name on the registrations. *)
Fixpoint store_get (name : string) (l : list MutatingWebhookConfiguration)
  : option MutatingWebhookConfiguration :=
  match l with
  | [] => None
  | c :: rest => if bool_decide (mwc_Name c = name) then Some c else store_get name rest
  end.

(** Replace of the whole document of that name. *)
Fixpoint store_replace (doc : MutatingWebhookConfiguration)
    (l : list MutatingWebhookConfiguration) : list MutatingWebhookConfiguration :=
  match l with
  | [] => []
  | c :: rest =>
      if bool_decide (mwc_Name c = mwc_Name doc) then doc :: rest
      else c :: store_replace doc rest
  end.

Definition record_event (e : Event) (w : World) : World :=
  {| w_isLeader := w_isLeader w; w_secrets := w_secrets w;
     w_webhooks := w_webhooks w; w_namespace := w_namespace w;
     w_updateError := w_updateError w; w_events := e :: w_events w |}.

Definition set_webhooks (l : list MutatingWebhookConfiguration) (w : World) : World :=
  {| w_isLeader := w_isLeader w; w_secrets := w_secrets w;
     w_webhooks := l; w_namespace := w_namespace w;
     w_updateError := w_updateError w; w_events := w_events w |}.

(** Computations over the world that may stop with an error. *)
Definition M (A : Type) : Type := World -> result A * World.

Definition ret {A : Type} (a : A) : M A := fun w => (Ok a, w).

Definition fail {A : Type} (e : error) : M A := fun w => (Err e, w).

Definition bind {A B : Type} (m : M A) (k : A -> M B) : M B :=
  fun w =>
    match m w with
    | (Ok a, w') => k a w'
    | (Err e, w') => (Err e, w')
    end.

(** [m] with its error, if any, passed through [wrap] ([fmt.Errorf] with [%w]). *)
Definition wrapping {A : Type} (wrap : error -> error) (m : M A) : M A :=
  fun w =>
    match m w with
    | (Ok a, w') => (Ok a, w')
    | (Err e, w') => (Err (wrap e), w')
    end.

Notation "'let*' x ':=' m 'in' k" := (bind m (fun x => k))
  (at level 10, x name, m at level 100, k at level 200).

(** [ac.IsLeaderFor(ac.key)]: no call leaves the process. *)
Definition isLeaderFor : M bool := fun w => (Ok (w_isLeader w), w).

(** [ac.secretlister.Secrets(system.Namespace()).Get(name)]. *)
Definition getSecret (name : string) : M Secret :=
  fun w =>
    (match w_secrets w !! name with
     | Some s => Ok s
     | None => Err (External "secret not found")
     end, record_event (EvGetSecret name) w).

(** [ac.mwhlister.Get(name)]. *)
Definition getWebhook (name : string) : M MutatingWebhookConfiguration :=
  fun w =>
    (match store_get name (w_webhooks w) with
     | Some c => Ok c
     | None => Err (External "mutatingwebhookconfiguration not found")
     end, record_event (EvGetWebhook name) w).

(** [ac.client.CoreV1().Namespaces().Get(ctx, system.Namespace(), ..)]. *)
Definition getNamespace : M Namespace :=
  fun w => (w_namespace w, record_event EvGetNamespace w).

(** [mwhclient.Update(ctx, current, ..)]: the store replaces the whole
    document, or answers with an error and keeps what it had. *)
Definition updateWebhook (current : MutatingWebhookConfiguration) : M unit :=
  fun w =>
    match w_updateError w with
    | Some msg => (Err (External msg), record_event (EvUpdate current false) w)
    | None =>
        (Ok tt, record_event (EvUpdate current true)
                  (set_webhooks (store_replace current (w_webhooks w)) w))
    end.

(** ** The reconcile path: [Reconcile] and [reconcileMutatingWebhook] *)

(** [types.NamespacedName] and the fields of [reconciler] that the two
    functions read. *)
Record NamespacedName : Type := {
  nn_Namespace : string;
  nn_Name : string
}.

Record reconciler : Type := {
  ac_key : NamespacedName;
  ac_path : string;
  ac_secretName : string
}.

(** [Path], lines 248-250. *)
Definition Path (ac : reconciler) : string := ac_path ac.

(** [certresources.CACert], the secret key the CA bundle is kept under
    (declared in [knative.dev/pkg/webhook/certificates/resources]). *)
Definition CACert : string := "ca-cert.pem".

(** [metav1.NewControllerRef(ns, corev1.SchemeGroupVersion.WithKind("Namespace"))]
    of [k8s.io/apimachinery]: a controller reference to the owner. *)
Definition NewControllerRef (owner : ObjectMeta) (gvk : GroupVersionKind)
  : OwnerReference :=
  {| own_APIVersion :=
       if bool_decide (gvk_Group gvk = "") then gvk_Version gvk
       else gvk_Group gvk +:+ "/" +:+ gvk_Version gvk;
     own_Kind := gvk_Kind gvk;
     own_Name := meta_Name owner;
     own_UID := meta_UID owner;
     own_Controller := Some true;
     own_BlockOwnerDeletion := Some true |}.

(** [kmp.SafeEqual] of [knative.dev/pkg/kmp]: [cmp.Equal] on the two
    documents, and an error only when the comparison itself breaks down, which
    it does not on these types.  [cmp.Equal] compares structs field by field,
    pointers by what they point to, and slices and maps member by member after
    it has checked that both are nil or both are not: a nil slice and an empty
    one are different.

    The code calls it on [configuredWebhook] and [current], line 194, where
    [current] is the deep copy of [configuredWebhook] after the assignments of
    lines 166-191.  On such a pair it is the equality of the records below:
    - a field that is not assigned is copied by [DeepCopy], which keeps nil
      slices nil and empty ones empty, so it is equal on both sides;
    - [OwnerReferences] (line 166) and [Rules] (line 174) are assigned
      literals in which every slice has one member, so a value equal to them
      as a list is not nil either;
    - [CABundle] (line 185) and [NamespaceSelector] (line 176) are assigned
      values that come from the secret and from a library call; their slices
      and maps are [option]s here, [None] for nil.
    Pointers are [option]s throughout. *)
Definition SafeEqual (x y : MutatingWebhookConfiguration) : bool * option error :=
  (bool_decide (x = y), None).

Definition set_OwnerReferences (refs : list OwnerReference)
    (c : MutatingWebhookConfiguration) : MutatingWebhookConfiguration :=
  let m := mwc_ObjectMeta c in
  {| mwc_ObjectMeta :=
       {| meta_Name := meta_Name m; meta_UID := meta_UID m;
          meta_Labels := meta_Labels m; meta_Annotations := meta_Annotations m;
          meta_OwnerReferences := refs |};
     mwc_Webhooks := mwc_Webhooks c |}.

Definition set_Webhooks (whs : list MutatingWebhook)
    (c : MutatingWebhookConfiguration) : MutatingWebhookConfiguration :=
  {| mwc_ObjectMeta := mwc_ObjectMeta c; mwc_Webhooks := whs |}.

(** The rule set of lines 143-152: creation of pods. *)
Definition rules : list RuleWithOperations :=
  [ {| rwo_Operations := [Create];
       rwo_Rule := {| rule_APIGroups := [""]; rule_APIVersions := ["v1"];
                      rule_Resources := ["pods"]; rule_Scope := None |} |} ].

(** The selector passed as [want] at lines 178-183: the literal names neither
    [MatchLabels] nor [Values], which are nil. *)
Definition excludeSelector : LabelSelector :=
  {| ls_MatchLabels := None;
     ls_MatchExpressions :=
       Some [ {| req_Key := "webhooks.knative.dev/exclude";
                 req_Operator := LabelSelectorOpDoesNotExist;
                 req_Values := None |} ] |}.

Section Reconciler.

(** [webhook.EnsureLabelSelectorExpressions] of [knative.dev/pkg/webhook]
    merges the wanted expressions into the current selector.  Its code is not
    part of the repository: the reconcile path is defined over any such
    function. *)
Variable EnsureLabelSelectorExpressions :
  option LabelSelector -> option LabelSelector -> option LabelSelector.

(** The body of the loop of lines 168-192 on one entry: [Ok] with the entry as
    the loop leaves it, [Err] when the loop returns from the function. *)
Definition reconcileEntry (ac : reconciler) (caCert : option (list Z)) (currentName : string)
    (wh : MutatingWebhook) : result MutatingWebhook :=
  if bool_decide (wh_Name wh <> currentName) then Ok wh
  else
    let namespaceSelector :=
      EnsureLabelSelectorExpressions (wh_NamespaceSelector wh) (Some excludeSelector) in
    match cc_Service (wh_ClientConfig wh) with
    | None => Err (MissingServiceReference (wh_Name wh))
    | Some service =>
        Ok {| wh_Name := wh_Name wh;
              wh_ClientConfig :=
                {| cc_URL := cc_URL (wh_ClientConfig wh);
                   cc_Service :=
                     Some {| svc_Namespace := svc_Namespace service;
                             svc_Name := svc_Name service;
                             svc_Path := Some (Path ac);
                             svc_Port := svc_Port service |};
                   cc_CABundle := caCert |};
              wh_Rules := rules;
              wh_FailurePolicy := wh_FailurePolicy wh;
              wh_NamespaceSelector := namespaceSelector;
              wh_ObjectSelector := wh_ObjectSelector wh;
              wh_SideEffects := wh_SideEffects wh;
              wh_AdmissionReviewVersions := wh_AdmissionReviewVersions wh;
              wh_ReinvocationPolicy := Some IfNeededReinvocationPolicy |}
    end.

(** The loop over [current.Webhooks], in order, stopping at the first
    return. *)
Fixpoint reconcileEntries (ac : reconciler) (caCert : option (list Z)) (currentName : string)
    (whs : list MutatingWebhook) : result (list MutatingWebhook) :=
  match whs with
  | [] => Ok []
  | wh :: rest =>
      match reconcileEntry ac caCert currentName wh with
      | Err e => Err e
      | Ok wh' =>
          match reconcileEntries ac caCert currentName rest with
          | Err e => Err e
          | Ok rest' => Ok (wh' :: rest')
          end
      end
  end.

(** [reconcileMutatingWebhook], lines 141-206.  [Ok tt] is the nil error. *)
Definition reconcileMutatingWebhook (ac : reconciler) (caCert : option (list Z)) : M unit :=
  let* configuredWebhook := wrapping RetrievingWebhook (getWebhook (nn_Name (ac_key ac))) in
  let current := configuredWebhook in
  let* ns := wrapping FetchNamespace getNamespace in
  let nsRef :=
    NewControllerRef (ns_ObjectMeta ns)
      {| gvk_Group := ""; gvk_Version := "v1"; gvk_Kind := "Namespace" |} in
  let current := set_OwnerReferences [nsRef] current in
  match reconcileEntries ac caCert (mwc_Name current) (mwc_Webhooks current) with
  | Err e => fail e
  | Ok webhooks =>
      let current := set_Webhooks webhooks current in
      match SafeEqual configuredWebhook current with
      | (_, Some err) => fail (DiffingWebhooks err)
      | (false, None) => wrapping UpdatingWebhook (updateWebhook current)
      | (true, None) => ret tt
      end
  end.

(** [Reconcile], lines 119-139. *)
Definition Reconcile (ac : reconciler) (key : string) : M unit :=
  let* leader := isLeaderFor in
  if negb leader then fail (SkipKey key)
  else
    let* secret := getSecret (ac_secretName ac) in
    match secret_Data secret !! CACert with
    | None => fail (MissingKey (ac_secretName ac) CACert)
    | Some caCert => reconcileMutatingWebhook ac caCert
    end.

End Reconciler.

(** ** Notions the properties are stated with *)

(** What lines 229-233 of [Admit] do to the pod: the test label. *)
Definition withTestLabel (pod : Pod) : Pod :=
  let labels :=
    match pod_Labels pod with
    | None => ∅
    | Some l => l
    end in
  set_Labels pod (Some (<["QuanTest" := "hello1"]> labels)).

(** What lines 224-233 of [Admit] do to the pod: the target of the diff. *)
Definition mutatePod (pod : Pod) : Pod :=
  withTestLabel
    match map_get (pod_Labels pod) "tekton.dev/pipelineRun" with
    | Some pr => mutatePodAffinity pod pr
    | None => pod
    end.

(** A hex digit, lower case. *)
Definition is_hex_char (c : ascii) : bool :=
  let n := N_of_ascii c in
  (((48 <=? n) && (n <=? 57)) || ((97 <=? n) && (n <=? 102)))%N.

(** [put p v doc]: the document with the value at [p] replaced by [v]. *)
Fixpoint put (p : Pointer) (v : json) (doc : json) : json :=
  match p with
  | [] => v
  | k :: rest =>
      match doc with
      | JObj m =>
          match m !! k with
          | Some c => JObj (<[k := put rest v c]> m)
          | None => doc
          end
      | _ => doc
      end
  end.

(** [obj_path p doc a]: following [p] from [doc] through objects leads to [a]. *)
Fixpoint obj_path (p : Pointer) (doc a : json) : Prop :=
  match p with
  | [] => doc = a
  | k :: rest =>
      match doc with
      | JObj m => exists c, m !! k = Some c /\ obj_path rest c a
      | _ => False
      end
  end.

Definition is_obj (j : json) : bool :=
  match j with
  | JObj _ => true
  | _ => false
  end.

(** What [diff] promises for the values at one pointer. *)
Definition diff_sound_at (a : json) : Prop :=
  forall b p r, obj_path p r a -> apply_patch (diff p a b) r = Some (put p b r).

(** The pointer an operation acts on. *)
Definition op_path (o : Operation) : Pointer :=
  match o with
  | Add p _ | Remove p | Replace p _ | Move _ p | Copy _ p | Test p _ => p
  end.

(** The required rules of a pod's affinity, [[]] behind nil pointers. *)
Definition requiredRules (p : Pod) : list PodAffinityTerm :=
  match spec_Affinity (pod_Spec p) with
  | Some a =>
      match aff_PodAffinity a with
      | Some pa => pa_RequiredDuringSchedulingIgnoredDuringExecution pa
      | None => []
      end
  | None => []
  end.

(** The scheduling constraints written into a pod that had none: one required
    rule, keyed on the instance label, per host. *)
Definition constraintsFor (token : string) : Affinity :=
  {| aff_PodAffinity :=
       Some {| pa_RequiredDuringSchedulingIgnoredDuringExecution :=
                 [ {| term_LabelSelector :=
                        Some {| ls_MatchLabels := Some {[ LabelInstance := token ]};
                                ls_MatchExpressions := None |};
                      term_Namespaces := [];
                      term_TopologyKey := "kubernetes.io/hostname" |} ];
               pa_PreferredDuringSchedulingIgnoredDuringExecution := [] |};
     aff_PodAntiAffinity := None |}.

(** The desired registration, as lines 159-192 compute it from the observed
    one: the DesiredStateBuilder of section 4.5. *)
Definition desiredRegistration
    (E : option LabelSelector -> option LabelSelector -> option LabelSelector)
    (ac : reconciler) (caCert : option (list Z)) (ns : Namespace)
    (configuredWebhook : MutatingWebhookConfiguration)
  : result MutatingWebhookConfiguration :=
  let nsRef :=
    NewControllerRef (ns_ObjectMeta ns)
      {| gvk_Group := ""; gvk_Version := "v1"; gvk_Kind := "Namespace" |} in
  let current := set_OwnerReferences [nsRef] configuredWebhook in
  match reconcileEntries E ac caCert (mwc_Name current) (mwc_Webhooks current) with
  | Err e => Err e
  | Ok webhooks => Ok (set_Webhooks webhooks current)
  end.

(** The calls a run issued: the events of [after] that [before] did not have. *)
Definition issued (before after : World) : list Event :=
  take (length (w_events after) - length (w_events before)) (w_events after).

Definition is_update (e : Event) : bool :=
  match e with
  | EvUpdate _ _ => true
  | _ => false
  end.


Definition count_events (f : Event -> bool) (l : list Event) : nat :=
  length (List.filter f l).

(** The three reads every run of a leader makes before it compares. *)
Definition after_reads (ac : reconciler) (w : World) : World :=
  record_event EvGetNamespace
    (record_event (EvGetWebhook (nn_Name (ac_key ac)))
       (record_event (EvGetSecret (ac_secretName ac)) w)).

(** What one run of [Reconcile] does, read off the world: the error or nil it
    returns, the calls it issues (the latest first) and the document the store
    takes, if any. *)
Definition plan
    (E : option LabelSelector -> option LabelSelector -> option LabelSelector)
    (ac : reconciler) (key : string) (w : World)
  : result unit * list Event * option MutatingWebhookConfiguration :=
  let getS := EvGetSecret (ac_secretName ac) in
  let getW := EvGetWebhook (nn_Name (ac_key ac)) in
  if negb (w_isLeader w) then (Err (SkipKey key), [], None)
  else
    match w_secrets w !! ac_secretName ac with
    | None => (Err (External "secret not found"), [getS], None)
    | Some s =>
        match secret_Data s !! CACert with
        | None => (Err (MissingKey (ac_secretName ac) CACert), [getS], None)
        | Some caCert =>
            match store_get (nn_Name (ac_key ac)) (w_webhooks w) with
            | None =>
                (Err (RetrievingWebhook (External "mutatingwebhookconfiguration not found")),
                 [getW; getS], None)
            | Some c =>
                match w_namespace w with
                | Err e => (Err (FetchNamespace e), [EvGetNamespace; getW; getS], None)
                | Ok ns =>
                    match desiredRegistration E ac caCert ns c with
                    | Err e => (Err e, [EvGetNamespace; getW; getS], None)
                    | Ok current =>
                        if bool_decide (c = current)
                        then (Ok tt, [EvGetNamespace; getW; getS], None)
                        else
                          match w_updateError w with
                          | Some msg =>
                              (Err (UpdatingWebhook (External msg)),
                               [EvUpdate current false; EvGetNamespace; getW; getS], None)
                          | None =>
                              (Ok tt,
                               [EvUpdate current true; EvGetNamespace; getW; getS],
                               Some current)
                          end
                    end
                end
            end
        end
    end.

(** The world after a run with that plan. *)
Definition commit (w : World) (evs : list Event)
    (stored : option MutatingWebhookConfiguration) : World :=
  {| w_isLeader := w_isLeader w; w_secrets := w_secrets w;
     w_webhooks := match stored with
                   | Some d => store_replace d (w_webhooks w)
                   | None => w_webhooks w
                   end;
     w_namespace := w_namespace w; w_updateError := w_updateError w;
     w_events := evs ++ w_events w |}.

(** The runs of [Reconcile], one constructor per way through lines 119-206:
    [Run E ac key w r evs stored] says that the run on [w] returns [r], issues
    the calls [evs] (the latest first) and has the store take [stored]. *)
Inductive Run
    (E : option LabelSelector -> option LabelSelector -> option LabelSelector)
    (ac : reconciler) (key : string) (w : World)
  : result unit -> list Event -> option MutatingWebhookConfiguration -> Prop :=
  | RunSkip :
      w_isLeader w = false ->
      Run E ac key w (Err (SkipKey key)) [] None
  | RunNoSecret :
      w_isLeader w = true ->
      w_secrets w !! ac_secretName ac = None ->
      Run E ac key w (Err (External "secret not found"))
        [EvGetSecret (ac_secretName ac)] None
  | RunNoKey s :
      w_isLeader w = true ->
      w_secrets w !! ac_secretName ac = Some s ->
      secret_Data s !! CACert = None ->
      Run E ac key w (Err (MissingKey (ac_secretName ac) CACert))
        [EvGetSecret (ac_secretName ac)] None
  | RunNoWebhook s caCert :
      w_isLeader w = true ->
      w_secrets w !! ac_secretName ac = Some s ->
      secret_Data s !! CACert = Some caCert ->
      store_get (nn_Name (ac_key ac)) (w_webhooks w) = None ->
      Run E ac key w
        (Err (RetrievingWebhook (External "mutatingwebhookconfiguration not found")))
        [EvGetWebhook (nn_Name (ac_key ac)); EvGetSecret (ac_secretName ac)] None
  | RunNoNamespace s caCert c e :
      w_isLeader w = true ->
      w_secrets w !! ac_secretName ac = Some s ->
      secret_Data s !! CACert = Some caCert ->
      store_get (nn_Name (ac_key ac)) (w_webhooks w) = Some c ->
      w_namespace w = Err e ->
      Run E ac key w (Err (FetchNamespace e))
        [EvGetNamespace; EvGetWebhook (nn_Name (ac_key ac));
         EvGetSecret (ac_secretName ac)] None
  | RunNoDesired s caCert c ns e :
      w_isLeader w = true ->
      w_secrets w !! ac_secretName ac = Some s ->
      secret_Data s !! CACert = Some caCert ->
      store_get (nn_Name (ac_key ac)) (w_webhooks w) = Some c ->
      w_namespace w = Ok ns ->
      desiredRegistration E ac caCert ns c = Err e ->
      Run E ac key w (Err e)
        [EvGetNamespace; EvGetWebhook (nn_Name (ac_key ac));
         EvGetSecret (ac_secretName ac)] None
  | RunValid s caCert c ns :
      w_isLeader w = true ->
      w_secrets w !! ac_secretName ac = Some s ->
      secret_Data s !! CACert = Some caCert ->
      store_get (nn_Name (ac_key ac)) (w_webhooks w) = Some c ->
      w_namespace w = Ok ns ->
      desiredRegistration E ac caCert ns c = Ok c ->
      Run E ac key w (Ok tt)
        [EvGetNamespace; EvGetWebhook (nn_Name (ac_key ac));
         EvGetSecret (ac_secretName ac)] None
  | RunRejected s caCert c ns d msg :
      w_isLeader w = true ->
      w_secrets w !! ac_secretName ac = Some s ->
      secret_Data s !! CACert = Some caCert ->
      store_get (nn_Name (ac_key ac)) (w_webhooks w) = Some c ->
      w_namespace w = Ok ns ->
      desiredRegistration E ac caCert ns c = Ok d ->
      c <> d ->
      w_updateError w = Some msg ->
      Run E ac key w (Err (UpdatingWebhook (External msg)))
        [EvUpdate d false; EvGetNamespace; EvGetWebhook (nn_Name (ac_key ac));
         EvGetSecret (ac_secretName ac)] None
  | RunUpdated s caCert c ns d :
      w_isLeader w = true ->
      w_secrets w !! ac_secretName ac = Some s ->
      secret_Data s !! CACert = Some caCert ->
      store_get (nn_Name (ac_key ac)) (w_webhooks w) = Some c ->
      w_namespace w = Ok ns ->
      desiredRegistration E ac caCert ns c = Ok d ->
      c <> d ->
      w_updateError w = None ->
      Run E ac key w (Ok tt)
        [EvUpdate d true; EvGetNamespace; EvGetWebhook (nn_Name (ac_key ac));
         EvGetSecret (ac_secretName ac)] (Some d).

(** The fields of a targeted entry that the loop of lines 168-192 does not
    assign. *)
Definition same_untouched (wh wh' : MutatingWebhook) : Prop :=
  wh_Name wh' = wh_Name wh
  /\ cc_URL (wh_ClientConfig wh') = cc_URL (wh_ClientConfig wh)
  /\ wh_FailurePolicy wh' = wh_FailurePolicy wh
  /\ wh_ObjectSelector wh' = wh_ObjectSelector wh
  /\ wh_SideEffects wh' = wh_SideEffects wh
  /\ wh_AdmissionReviewVersions wh' = wh_AdmissionReviewVersions wh
  /\ (forall service,
        cc_Service (wh_ClientConfig wh) = Some service ->
        exists service',
          cc_Service (wh_ClientConfig wh') = Some service'
          /\ svc_Namespace service' = svc_Namespace service
          /\ svc_Name service' = svc_Name service
          /\ svc_Port service' = svc_Port service).

(** The preferred rules and the anti-affinity of a pod, behind nil pointers. *)
Definition preferredRules (p : Pod) : list WeightedPodAffinityTerm :=
  match spec_Affinity (pod_Spec p) with
  | Some a =>
      match aff_PodAffinity a with
      | Some pa => pa_PreferredDuringSchedulingIgnoredDuringExecution pa
      | None => []
      end
  | None => []
  end.

Definition antiAffinity (p : Pod) : option PodAntiAffinity :=
  match spec_Affinity (pod_Spec p) with
  | Some a => aff_PodAntiAffinity a
  | None => None
  end.

(** Characters of a token: lower-case letters, digits and the hyphen. *)
Definition is_lower_alnum (c : ascii) : bool :=
  let n := N_of_ascii c in
  (((48 <=? n) && (n <=? 57)) || ((97 <=? n) && (n <=? 122)))%N.

Definition is_token_char (c : ascii) : bool :=
  is_lower_alnum c || (N_of_ascii c =? 45)%N.

(** ** Instances used to evaluate the model *)

(** Modelled from the spec: [webhook.EnsureLabelSelectorExpressions] of
    [knative.dev/pkg/webhook] is missing from the repository.  Section 4.1
    (step 4) and section 9 describe the merge: the observed selector is kept
    and each wanted expression is appended after a membership check, so that
    re-applying the same expression does not duplicate it. *)
Definition ensureExpressions (current want : list LabelSelectorRequirement)
  : list LabelSelectorRequirement :=
  foldl (fun acc e => if bool_decide (e ∈ acc) then acc else acc ++ [e]) current want.

Definition EnsureLabelSelectorExpressions_spec (current want : option LabelSelector)
  : option LabelSelector :=
  match current, want with
  | None, _ => want
  | Some c, None => Some c
  | Some c, Some w =>
      Some {| ls_MatchLabels := ls_MatchLabels c;
              ls_MatchExpressions :=
                match ls_MatchExpressions w with
                | None => ls_MatchExpressions c
                | Some wanted =>
                    Some (ensureExpressions (default [] (ls_MatchExpressions c)) wanted)
                end |}
  end.

(** What the reconcile path needs of the merge: applying it again with the
    exclusion selector changes nothing. *)
Definition reapplies_cleanly
    (E : option LabelSelector -> option LabelSelector -> option LabelSelector) : Prop :=
  forall cur, E (E cur (Some excludeSelector)) (Some excludeSelector)
              = E cur (Some excludeSelector).

(** A decoder that knows the serialized pods of a table and fails on any other
    payload, leaving the object it was given untouched. *)
Fixpoint lookup_payload (data : list Z) (table : list (list Z * Pod)) : option Pod :=
  match table with
  | [] => None
  | (d, p) :: rest => if bool_decide (d = data) then Some p else lookup_payload data rest
  end.

Definition tableDecoder (table : list (list Z * Pod)) : Decoder :=
  {| Decode := fun data _ into =>
       match lookup_payload data table with
       | Some p => (p, None)
       | None => (into, Some "couldn't get version/kind; json parse error")
       end |}.

(** Sample pods and payloads: a pod already carrying the marker annotation,
    a pod created for the pipeline run [wf-1], and a pod that already has one
    required rule. *)
Definition markedPod : Pod :=
  {| pod_ObjectMeta :=
       {| meta_Name := "step-pod"; meta_UID := "";
          meta_Labels := Some {[ "tekton.dev/pipelineRun" := "wf-1" ]};
          meta_Annotations := Some {[ AnnotationAffinityAssistantName := "affinity-assistant-1" ]};
          meta_OwnerReferences := [] |};
     pod_Spec := {| spec_Affinity := None; spec_NodeName := "" |} |}.

Definition workflowPod : Pod :=
  {| pod_ObjectMeta :=
       {| meta_Name := "step-pod"; meta_UID := "";
          meta_Labels := Some {[ "tekton.dev/pipelineRun" := "wf-1" ]};
          meta_Annotations := None;
          meta_OwnerReferences := [] |};
     pod_Spec := {| spec_Affinity := None; spec_NodeName := "" |} |}.

Definition zoneTerm : PodAffinityTerm :=
  {| term_LabelSelector :=
       Some {| ls_MatchLabels := Some {[ "app" := "cache" ]}; ls_MatchExpressions := None |};
     term_Namespaces := [];
     term_TopologyKey := "topology.kubernetes.io/zone" |}.

Definition pinnedPod : Pod :=
  {| pod_ObjectMeta := pod_ObjectMeta workflowPod;
     pod_Spec :=
       {| spec_Affinity :=
            Some {| aff_PodAffinity :=
                      Some {| pa_RequiredDuringSchedulingIgnoredDuringExecution := [zoneTerm];
                              pa_PreferredDuringSchedulingIgnoredDuringExecution := [] |};
                    aff_PodAntiAffinity := None |};
          spec_NodeName := "" |} |}.

(** A reconciler and the worlds it is run against: a leader that observes a
    registration with a stale CA bundle, the same world for a replica that is
    not the leader, and a world whose registration has no service target. *)
Definition sampleReconciler : reconciler :=
  {| ac_key := {| nn_Namespace := ""; nn_Name := "pod-affinity.webhook.dev" |};
     ac_path := "/pod-affinity";
     ac_secretName := "webhook-certs" |}.

Definition sampleWebhook (service : option ServiceReference) : MutatingWebhook :=
  {| wh_Name := "pod-affinity.webhook.dev";
     wh_ClientConfig :=
       {| cc_URL := None; cc_Service := service; cc_CABundle := Some [1; 2; 3] |};
     wh_Rules := [];
     wh_FailurePolicy := Some "Fail"%string;
     wh_NamespaceSelector := None;
     wh_ObjectSelector := None;
     wh_SideEffects := Some "None"%string;
     wh_AdmissionReviewVersions := ["v1"%string];
     wh_ReinvocationPolicy := None |}.

Definition sampleRegistration (service : option ServiceReference)
  : MutatingWebhookConfiguration :=
  {| mwc_ObjectMeta :=
       {| meta_Name := "pod-affinity.webhook.dev"; meta_UID := "2f1c";
          meta_Labels := None; meta_Annotations := None; meta_OwnerReferences := [] |};
     mwc_Webhooks := [sampleWebhook service] |}.

Definition sampleService : ServiceReference :=
  {| svc_Namespace := "tekton-pipelines"; svc_Name := "pod-affinity-webhook";
     svc_Path := None; svc_Port := None |}.

Definition sampleWorld (leader : bool) (service : option ServiceReference) : World :=
  {| w_isLeader := leader;
     w_secrets := {[ "webhook-certs"%string := {| secret_Data := {[ CACert := Some [4; 5; 6] ]} |} ]};
     w_webhooks := [sampleRegistration service];
     w_namespace :=
       Ok {| ns_ObjectMeta :=
               {| meta_Name := "tekton-pipelines"; meta_UID := "9d0e";
                  meta_Labels := None; meta_Annotations := None;
                  meta_OwnerReferences := [] |} |};
     w_updateError := None;
     w_events := [] |}.

Definition staleWorld : World := sampleWorld true (Some sampleService).
Definition followerWorld : World := sampleWorld false (Some sampleService).
Definition brokenWorld : World := sampleWorld true None.

Definition sampleDecoder : Decoder :=
  tableDecoder [ (bytes_of_string "marked", markedPod);
                 (bytes_of_string "workflow", workflowPod);
                 (bytes_of_string "workflow, admitted once", mutatePod workflowPod);
                 (bytes_of_string "pinned", pinnedPod) ].

Definition requestOf (payload : string) : AdmissionRequest :=
  {| areq_UID := "705ab4f5"; areq_Object_Raw := bytes_of_string payload |}.

(** The leader's world with a store that refuses updates. *)
Definition forbiddenWorld : World :=
  {| w_isLeader := true;
     w_secrets := w_secrets staleWorld;
     w_webhooks := w_webhooks staleWorld;
     w_namespace := w_namespace staleWorld;
     w_updateError := Some "forbidden"%string;
     w_events := [] |}.

(** A registration that is in its desired form but for the CA bundle, which
    is the nil slice, and the worlds of a leader whose secret holds the empty
    slice and the nil slice under the CA key. *)
Definition bareRegistration : MutatingWebhookConfiguration :=
  {| mwc_ObjectMeta :=
       {| meta_Name := "pod-affinity.webhook.dev"; meta_UID := "2f1c";
          meta_Labels := None; meta_Annotations := None;
          meta_OwnerReferences :=
            [ {| own_APIVersion := "v1"; own_Kind := "Namespace";
                 own_Name := "tekton-pipelines"; own_UID := "9d0e";
                 own_Controller := Some true; own_BlockOwnerDeletion := Some true |} ] |};
     mwc_Webhooks :=
       [ {| wh_Name := "pod-affinity.webhook.dev";
            wh_ClientConfig :=
              {| cc_URL := None;
                 cc_Service :=
                   Some {| svc_Namespace := "tekton-pipelines";
                           svc_Name := "pod-affinity-webhook";
                           svc_Path := Some "/pod-affinity"%string;
                           svc_Port := None |};
                 cc_CABundle := None |};
            wh_Rules := rules;
            wh_FailurePolicy := Some "Fail"%string;
            wh_NamespaceSelector := Some excludeSelector;
            wh_ObjectSelector := None;
            wh_SideEffects := Some "None"%string;
            wh_AdmissionReviewVersions := ["v1"%string];
            wh_ReinvocationPolicy := Some IfNeededReinvocationPolicy |} ] |}.

Definition bareWorld (bundle : option (list Z)) : World :=
  {| w_isLeader := true;
     w_secrets := {[ "webhook-certs"%string := {| secret_Data := {[ CACert := bundle ]} |} ]};
     w_webhooks := [bareRegistration];
     w_namespace := w_namespace staleWorld;
     w_updateError := None;
     w_events := [] |}.

(** The same registration with an exclusion expression whose [Values] is the
    empty slice, where the selector of line 178 has the nil slice. *)
Definition emptyValuesRegistration : MutatingWebhookConfiguration :=
  set_Webhooks
    (map (fun wh =>
            {| wh_Name := wh_Name wh;
               wh_ClientConfig := wh_ClientConfig wh;
               wh_Rules := wh_Rules wh;
               wh_FailurePolicy := wh_FailurePolicy wh;
               wh_NamespaceSelector :=
                 Some {| ls_MatchLabels := None;
                         ls_MatchExpressions :=
                           Some [ {| req_Key := "webhooks.knative.dev/exclude";
                                     req_Operator := LabelSelectorOpDoesNotExist;
                                     req_Values := Some [] |} ] |};
               wh_ObjectSelector := wh_ObjectSelector wh;
               wh_SideEffects := wh_SideEffects wh;
               wh_AdmissionReviewVersions := wh_AdmissionReviewVersions wh;
               wh_ReinvocationPolicy := wh_ReinvocationPolicy wh |})
       (mwc_Webhooks bareRegistration))
    bareRegistration.

Definition sampleSecret : Secret := {| secret_Data := {[ CACert := Some [4; 5; 6] ]} |}.

Definition sampleNamespace : Namespace :=
  {| ns_ObjectMeta :=
       {| meta_Name := "tekton-pipelines"; meta_UID := "9d0e";
          meta_Labels := None; meta_Annotations := None;
          meta_OwnerReferences := [] |} |}.

(** * Properties *)

(** ** The derived token *)

Lemma hex_encode_length (b : list Z) :
  String.length (hex_encode b) = (2 * length b)%nat.
Proof.
  induction b as [|x b IH]; simpl; [reflexivity|].
  rewrite IH. lia.
Qed.

Lemma Sum256_length (data : list Z) : length (SHA256.Sum256 data) = 32%nat.
Proof.
  unfold SHA256.Sum256. cbv zeta.
  rewrite !length_app. reflexivity.
Qed.

Lemma hex_Sum256_length (data : list Z) :
  String.length (hex_encode (SHA256.Sum256 data)) = 64%nat.
Proof. rewrite hex_encode_length, Sum256_length. reflexivity. Qed.

Lemma substring_prefix (n : nat) (s : string) : substring 0 n s = hex_prefix n s.
Proof.
  unfold hex_prefix. revert s.
  induction n as [|n IH]; intros [|c s]; simpl; try reflexivity.
  now rewrite IH.
Qed.

Lemma substring_prefix_length (n : nat) (s : string) :
  (n <= String.length s)%nat -> String.length (substring 0 n s) = n.
Proof.
  revert s. induction n as [|n IH]; intros [|c s] Hn; simpl in *;
    try reflexivity; try lia.
  rewrite IH; lia.
Qed.

Lemma string_app_length (s t : string) :
  String.length (s +:+ t) = (String.length s + String.length t)%nat.
Proof. induction s as [|c s IH]; simpl; [reflexivity | now rewrite IH]. Qed.
Example sha_abc :
  hex_encode (SHA256.Sum256 (bytes_of_string "abc")) =
  "ba7816bf8f01cfea414140de5dae2223b00361a396177a9cb410ff61f20015ad"%string.
Proof. vm_compute. reflexivity. Qed.

Example sha_empty :
  hex_encode (SHA256.Sum256 (bytes_of_string "")) =
  "e3b0c44298fc1c149afbf4c8996fb92427ae41e4649b934ca495991b7852b855"%string.
Proof. vm_compute. reflexivity. Qed.

Example sha_two_blocks :
  hex_encode (SHA256.Sum256 (repeat 97 119)) =
  "31eba51c313a5c08226adf18d4a359cfdfd8d2e816b13f4af952f7ea6584dcfb"%string.
Proof. vm_compute. reflexivity. Qed.

Example sha_56 :
  hex_encode (SHA256.Sum256 (repeat 97 56)) =
  "b35439a4ac6f0948b6d6f9e3c6af0f5f590ce20f1bde7090ef7970686ec6738a"%string.
Proof. vm_compute. reflexivity. Qed.

Example derive_wf1 : getPodAffinityValue "wf-1" = "custom-pod-affinity-b3dcb3863c"%string.
Proof. vm_compute. reflexivity. Qed.

Lemma bytes_of_word_range (w : Z) :
  Forall (fun b => 0 <= b < 256) (SHA256.bytes_of_word w).
Proof.
  unfold SHA256.bytes_of_word.
  repeat constructor;
    change 255 with (Z.ones 8); rewrite Z.land_ones by lia;
    apply Z.mod_pos_bound; lia.
Qed.

Lemma Sum256_range (data : list Z) :
  Forall (fun b => 0 <= b < 256) (SHA256.Sum256 data).
Proof.
  unfold SHA256.Sum256. cbv zeta.
  repeat (apply Forall_app; split); apply bytes_of_word_range.
Qed.

Lemma hex_digit_hex (n : Z) : 0 <= n < 16 -> is_hex_char (hex_digit n) = true.
Proof.
  intros Hn.
  assert (H : Forall (fun k => is_hex_char (hex_digit (Z.of_nat k)) = true) (seq 0 16))
    by (repeat constructor).
  rewrite Forall_forall in H. specialize (H (Z.to_nat n)).
  rewrite Z2Nat.id in H by lia. apply H. apply elem_of_seq. lia.
Qed.

Lemma hex_encode_hex (b : list Z) :
  Forall (fun x => 0 <= x < 256) b ->
  Forall (fun c => is_hex_char c = true) (list_ascii_of_string (hex_encode b)).
Proof.
  induction 1 as [|x b Hx _ IH]; simpl; constructor; [|constructor; [|exact IH]].
  - apply hex_digit_hex. rewrite Z.shiftr_div_pow2 by lia.
    change (2 ^ 4) with 16. split.
    + apply Z.div_pos; lia.
    + apply Z.div_lt_upper_bound; lia.
  - apply hex_digit_hex. change 15 with (Z.ones 4). rewrite Z.land_ones by lia.
    apply Z.mod_pos_bound. lia.
Qed.

Lemma hex_prefix_chars (n : nat) (s : string) :
  list_ascii_of_string (hex_prefix n s) = firstn n (list_ascii_of_string s).
Proof. unfold hex_prefix. apply list_ascii_of_string_of_list_ascii. Qed.

(** C5.  [getPodAffinityValue] is the derivation of section 4.4: the constant
    prefix [custom-pod-affinity-] followed by the first ten characters of the
    hex encoding of the SHA-256 hash of the identifier's bytes.  The hex string
    always has 64 characters, so the slice of ten is in range; the ten
    characters are lower-case hex digits and the token has 30 characters.  The
    token is a function of the identifier alone: it reads no state, so repeated
    calls agree. *)
Theorem getPodAffinityValue_derive (workflowID : string) :
  let hashString := hex_encode (SHA256.Sum256 (bytes_of_string workflowID)) in
  getPodAffinityValue workflowID = Derive_spec workflowID
  /\ getPodAffinityValue workflowID = "custom-pod-affinity-" +:+ hex_prefix 10 hashString
  /\ String.length hashString = 64%nat
  /\ Forall (fun c => is_hex_char c = true)
       (list_ascii_of_string (hex_prefix 10 hashString))
  /\ String.length (getPodAffinityValue workflowID) = 30%nat.
Proof.
  intros hashString.
  assert (Hlen := hex_Sum256_length (bytes_of_string workflowID)).
  assert (Heq : getPodAffinityValue workflowID
                = "custom-pod-affinity-" +:+ hex_prefix 10 hashString).
  { unfold getPodAffinityValue. cbv zeta. rewrite substring_prefix. reflexivity. }
  split; [exact Heq|]. split; [exact Heq|]. split; [exact Hlen|]. split.
  - rewrite hex_prefix_chars. apply Forall_take.
    apply hex_encode_hex, Sum256_range.
  - unfold getPodAffinityValue. cbv zeta.
    rewrite !string_app_length, substring_prefix_length by lia.
    reflexivity.
Qed.

(** ** Documents: size, induction and equality *)

Lemma jsize_elem (x : json) (l : list json) :
  x ∈ l -> (jsize x < jsize (JArr l))%nat.
Proof. induction 1; simpl in *; lia. Qed.

Lemma jsize_lookup (m : gmap string json) (k : string) (v : json) :
  m !! k = Some v -> (jsize v < jsize (JObj m))%nat.
Proof.
  intros Hk. simpl.
  rewrite (map_fold_delete_L _ _ k v m); [lia | intros; lia | exact Hk].
Qed.

(** Induction on documents: the members of an array and of an object satisfy
    the property. *)
Lemma json_ind' (P : json -> Prop) :
  P JNull -> (forall b, P (JBool b)) -> (forall n, P (JNum n)) ->
  (forall s, P (JStr s)) ->
  (forall l, Forall P l -> P (JArr l)) ->
  (forall m, map_Forall (fun _ v => P v) m -> P (JObj m)) ->
  forall j, P j.
Proof.
  intros Hnull Hbool Hnum Hstr Harr Hobj.
  assert (Hn : forall n j, (jsize j < n)%nat -> P j).
  { induction n as [|n IH]; intros j Hj; [lia|].
    destruct j as [| | | |l|m]; auto.
    - apply Harr, Forall_forall. intros x Hx.
      apply IH. pose proof (jsize_elem x l Hx). lia.
    - apply Hobj. intros k v Hk.
      apply IH. pose proof (jsize_lookup m k v Hk). lia. }
  intros j. apply (Hn (S (jsize j))). lia.
Qed.

Lemma map_fold_andb {A : Type} (g : string -> A -> bool) (m : gmap string A) :
  map_fold (fun k v acc => g k v && acc) true m = true
  <-> forall k v, m !! k = Some v -> g k v = true.
Proof.
  induction m as [|i x m Hi Hfirst IH] using map_first_key_ind.
  - rewrite map_fold_empty. split; [|reflexivity].
    intros _ k v Hk. rewrite lookup_empty in Hk. discriminate.
  - rewrite map_fold_insert_first_key by assumption.
    rewrite andb_true_iff, IH. split.
    + intros [Hx Hm] k v Hk.
      destruct (decide (i = k)) as [->|Hne].
      * rewrite lookup_insert_eq in Hk. congruence.
      * rewrite lookup_insert_ne in Hk by assumption. eauto.
    + intros H. split.
      * apply H. apply lookup_insert_eq.
      * intros k v Hk. apply H.
        rewrite lookup_insert_ne; [assumption|]. congruence.
Qed.

Lemma jeqb_arr_eq (la : list json) :
  Forall (fun a => forall b, jeqb a b = true <-> a = b) la ->
  forall lb, jeqb (JArr la) (JArr lb) = true <-> la = lb.
Proof.
  induction 1 as [|x la Hx _ IH]; intros [|y lb]; simpl; try (split; congruence).
  simpl in IH. rewrite andb_true_iff, Hx, IH.
  split; [intros [-> ->]; reflexivity | intros [= -> ->]; auto].
Qed.

(** [jeqb] decides equality of documents. *)
Lemma jeqb_eq (a b : json) : jeqb a b = true <-> a = b.
Proof.
  revert b. induction a as [|x|x|x|la IH|ma IH] using json_ind'; intros b.
  - destruct b; simpl; split; congruence.
  - destruct b; simpl; try (split; congruence).
    rewrite bool_decide_eq_true. split; congruence.
  - destruct b; simpl; try (split; congruence).
    rewrite bool_decide_eq_true. split; congruence.
  - destruct b; simpl; try (split; congruence).
    rewrite bool_decide_eq_true. split; congruence.
  - destruct b as [| | | |lb|]; try (simpl; split; congruence).
    rewrite (jeqb_arr_eq la IH lb). split; congruence.
  - destruct b as [| | | | |mb]; try (simpl; split; congruence).
    simpl. rewrite andb_true_iff, bool_decide_eq_true, map_fold_andb.
    split.
    + intros [Hdom Hall]. f_equal. apply map_eq. intros k.
      destruct (ma !! k) as [av|] eqn:Hk.
      * specialize (Hall k av Hk).
        destruct (mb !! k) as [bv|]; [|discriminate].
        apply (IH k av Hk) in Hall. congruence.
      * symmetry. apply not_elem_of_dom. rewrite <- Hdom.
        apply not_elem_of_dom. exact Hk.
    + intros [= <-]. split; [reflexivity|].
      intros k v Hk. rewrite Hk. apply (IH k v Hk). reflexivity.
Qed.

Lemma jeqb_refl (a : json) : jeqb a a = true.
Proof. apply jeqb_eq. reflexivity. Qed.

(** ** Pointers into nested objects *)

Lemma obj_path_snoc p r m k c :
  obj_path p r (JObj m) -> m !! k = Some c -> obj_path (p ++ [k]) r c.
Proof.
  revert r. induction p as [|k0 p IH]; intros r Hp Hk; simpl in *.
  - subst r. eauto.
  - destruct r; try contradiction.
    destruct Hp as (c0 & Hc0 & Hp). eauto.
Qed.

Lemma obj_path_snoc_inv p r k c :
  obj_path (p ++ [k]) r c -> exists m, obj_path p r (JObj m) /\ m !! k = Some c.
Proof.
  revert r. induction p as [|k0 p IH]; intros r Hp; simpl in *.
  - destruct r as [| | | | |m]; try contradiction.
    destruct Hp as (c0 & Hc0 & ->). eauto.
  - destruct r as [| | | | |m]; try contradiction.
    destruct Hp as (c0 & Hc0 & Hp).
    destruct (IH _ Hp) as (m' & Hm' & Hk). eauto.
Qed.

Lemma put_snoc p r m k c v :
  obj_path p r (JObj m) -> m !! k = Some c ->
  put (p ++ [k]) v r = put p (JObj (<[k := v]> m)) r.
Proof.
  revert r. induction p as [|k0 p IH]; intros r Hp Hk; simpl in *.
  - subst r. rewrite Hk. reflexivity.
  - destruct r as [| | | | |m0]; try contradiction.
    destruct Hp as (c0 & Hc0 & Hp). rewrite Hc0.
    rewrite (IH _ Hp Hk). reflexivity.
Qed.

Lemma put_put p r a u v : obj_path p r a -> put p v (put p u r) = put p v r.
Proof.
  revert r. induction p as [|k0 p IH]; intros r Hp; simpl in *; [reflexivity|].
  destruct r as [| | | | |m0]; try contradiction.
  destruct Hp as (c0 & Hc0 & Hp). rewrite Hc0. simpl.
  rewrite lookup_insert_eq, insert_insert_eq, (IH _ Hp). reflexivity.
Qed.

Lemma obj_path_put p r a v : obj_path p r a -> obj_path p (put p v r) v.
Proof.
  revert r. induction p as [|k0 p IH]; intros r Hp; simpl in *; [reflexivity|].
  destruct r as [| | | | |m0]; try contradiction.
  destruct Hp as (c0 & Hc0 & Hp). rewrite Hc0. simpl.
  exists (put p v c0). rewrite lookup_insert_eq. eauto.
Qed.

Lemma put_id p r a : obj_path p r a -> put p a r = r.
Proof.
  revert r. induction p as [|k0 p IH]; intros r Hp; simpl in *; [congruence|].
  destruct r as [| | | | |m0]; try contradiction.
  destruct Hp as (c0 & Hc0 & Hp). rewrite Hc0, (IH _ Hp).
  rewrite insert_id by assumption. reflexivity.
Qed.

(** An operation on the last token of a pointer acts on the container the
    pointer's prefix leads to. *)
Lemma at_parent_snoc f p k r a :
  obj_path p r a ->
  at_parent f (p ++ [k]) r = f k a ≫= fun a' => Some (put p a' r).
Proof.
  revert r. induction p as [|k0 p IH]; intros r Hp; simpl in Hp.
  - subst r. simpl. destruct (f k a); reflexivity.
  - destruct r as [| | | | |m0]; try contradiction.
    destruct Hp as (c0 & Hc0 & Hp).
    specialize (IH _ Hp).
    change ((k0 :: p) ++ [k]) with (k0 :: (p ++ [k])).
    destruct (p ++ [k]) as [|k1 q] eqn:Hq.
    { destruct p; discriminate. }
    assert (E : at_parent f (k0 :: k1 :: q) (JObj m0) =
                at_parent f (k1 :: q) c0 ≫= fun c' => Some (JObj (<[k0 := c']> m0))).
    { change (at_parent f (k0 :: k1 :: q) (JObj m0)) with
        (m0 !! k0 ≫= fun c =>
           at_parent f (k1 :: q) c ≫= fun c' => Some (JObj (<[k0 := c']> m0))).
      rewrite Hc0. reflexivity. }
    rewrite E, IH.
    destruct (f k a); simpl; [rewrite Hc0|]; reflexivity.
Qed.

Lemma add_at_snoc p r m k v :
  obj_path p r (JObj m) ->
  add_at (p ++ [k]) v r = Some (put p (JObj (<[k := v]> m)) r).
Proof.
  intros Hp. unfold add_at.
  destruct (p ++ [k]) as [|k1 q] eqn:Hq; [destruct p; discriminate|].
  rewrite <- Hq, (at_parent_snoc _ _ _ _ _ Hp). reflexivity.
Qed.

Lemma remove_at_snoc p r m k c :
  obj_path p r (JObj m) -> m !! k = Some c ->
  remove_at (p ++ [k]) r = Some (put p (JObj (delete k m)) r).
Proof.
  intros Hp Hk. unfold remove_at.
  rewrite (at_parent_snoc _ _ _ _ _ Hp). simpl. rewrite Hk. reflexivity.
Qed.

Lemma replace_at_put p r a v :
  obj_path p r a -> replace_at p v r = Some (put p v r).
Proof.
  intros Hp. destruct p as [|k0 p0] using rev_ind; [reflexivity|].
  clear IHp0.
  destruct (obj_path_snoc_inv _ _ _ _ Hp) as (m & Hm & Hk).
  unfold replace_at.
  destruct (p0 ++ [k0]) as [|k1 q] eqn:Hq; [destruct p0; discriminate|].
  rewrite <- Hq, (at_parent_snoc _ _ _ _ _ Hm). simpl. rewrite Hk. simpl.
  rewrite (put_snoc _ _ _ _ _ _ Hm Hk). reflexivity.
Qed.

Lemma apply_patch_app l1 l2 r :
  apply_patch (l1 ++ l2) r = apply_patch l1 r ≫= apply_patch l2.
Proof.
  revert r. induction l1 as [|o l1 IH]; intros r; simpl; [reflexivity|].
  destruct (apply_op o r); simpl; [apply IH | reflexivity].
Qed.

(** ** The patch generator *)

Lemma diff_obj p ma mb :
  diff p (JObj ma) (JObj mb) =
  map_fold (fun k av acc =>
              match mb !! k with
              | Some bv => diff (p ++ [k]) av bv
              | None => [Remove (p ++ [k])]
              end ++ acc) [] ma
  ++ map_fold (fun k bv acc =>
                 match ma !! k with
                 | Some _ => acc
                 | None => Add (p ++ [k]) bv :: acc
                 end) [] mb.
Proof. reflexivity. Qed.

Lemma diff_leaf p a b :
  is_obj a && is_obj b = false ->
  diff p a b = if jeqb a b then [] else [Replace p b].
Proof. destruct a, b; simpl; try reflexivity; discriminate. Qed.

(** The first loop of [diff] on an object: every member of the origin that
    was walked ends with the target's value, or is gone when the target has
    none; the other members are as they were. *)
Lemma diff_shared_members (mb : gmap string json) (p : Pointer) (m : gmap string json) :
  map_Forall (fun _ av => diff_sound_at av) m ->
  forall O r,
    (forall k v, m !! k = Some v -> O !! k = Some v) ->
    obj_path p r (JObj O) ->
    exists O',
      apply_patch
        (map_fold (fun k av acc =>
                     match mb !! k with
                     | Some bv => diff (p ++ [k]) av bv
                     | None => [Remove (p ++ [k])]
                     end ++ acc) [] m) r
      = Some (put p (JObj O') r)
      /\ forall k, O' !! k = if decide (is_Some (m !! k)) then mb !! k else O !! k.
Proof.
  induction m as [|i x m Hi Hfirst IH] using map_first_key_ind; intros Hall O r Hsub Hp.
  - rewrite map_fold_empty. exists O. split.
    + simpl. rewrite (put_id _ _ _ Hp). reflexivity.
    + intros k. rewrite lookup_empty.
      destruct (decide (is_Some (@None json))) as [[? ?]|]; [discriminate | reflexivity].
  - rewrite map_fold_insert_first_key by assumption.
    rewrite apply_patch_app.
    assert (HOi : O !! i = Some x) by (apply Hsub, lookup_insert_eq).
    assert (Hx : diff_sound_at x) by (apply (Hall i), lookup_insert_eq).
    assert (Hall' : map_Forall (fun _ av => diff_sound_at av) m).
    { intros k v Hk. apply (Hall k).
      rewrite lookup_insert_ne; [assumption | congruence]. }
    assert (Hstep : exists O1,
      apply_patch (match mb !! i with
                   | Some bv => diff (p ++ [i]) x bv
                   | None => [Remove (p ++ [i])]
                   end) r = Some (put p (JObj O1) r)
      /\ O1 !! i = mb !! i
      /\ forall k, k <> i -> O1 !! k = O !! k).
    { destruct (mb !! i) as [bv|] eqn:Hbi.
      - exists (<[i := bv]> O). split; [|split].
        + rewrite (Hx bv _ _ (obj_path_snoc _ _ _ _ _ Hp HOi)).
          rewrite (put_snoc _ _ _ _ _ _ Hp HOi). reflexivity.
        + apply lookup_insert_eq.
        + intros k Hk. apply lookup_insert_ne. congruence.
      - exists (delete i O). split; [|split].
        + simpl. rewrite (remove_at_snoc _ _ _ _ _ Hp HOi). reflexivity.
        + apply lookup_delete_eq.
        + intros k Hk. apply lookup_delete_ne. congruence. }
    destruct Hstep as (O1 & -> & HO1i & HO1).
    cbn [mbind option_bind].
    destruct (IH Hall' O1 (put p (JObj O1) r)) as (O' & Happ & HO').
    { intros k v Hk. rewrite HO1 by congruence.
      apply Hsub. rewrite lookup_insert_ne; [assumption | congruence]. }
    { apply (obj_path_put _ _ _ _ Hp). }
    exists O'. split.
    + rewrite Happ, (put_put _ _ _ _ _ Hp). reflexivity.
    + intros k. rewrite HO'.
      destruct (decide (i = k)) as [<-|Hne].
      * rewrite lookup_insert_eq, Hi.
        destruct (decide (is_Some (@None json))) as [[? ?]|]; [discriminate|].
        destruct (decide (is_Some (Some x))) as [_|Hn]; [assumption|].
        exfalso. apply Hn. eauto.
      * rewrite lookup_insert_ne by assumption.
        rewrite HO1 by congruence. reflexivity.
Qed.

(** The second loop of [diff] on an object: the members only the target has
    are added; the other members are as they were. *)
Lemma diff_new_members (ma : gmap string json) (p : Pointer) (m : gmap string json) :
  forall O r,
    obj_path p r (JObj O) ->
    exists O',
      apply_patch
        (map_fold (fun k bv acc =>
                     match ma !! k with
                     | Some _ => acc
                     | None => Add (p ++ [k]) bv :: acc
                     end) [] m) r
      = Some (put p (JObj O') r)
      /\ forall k, O' !! k =
                   match m !! k, ma !! k with
                   | Some bv, None => Some bv
                   | _, _ => O !! k
                   end.
Proof.
  induction m as [|i x m Hi Hfirst IH] using map_first_key_ind; intros O r Hp.
  - rewrite map_fold_empty. exists O. split.
    + simpl. rewrite (put_id _ _ _ Hp). reflexivity.
    + intros k. rewrite lookup_empty. reflexivity.
  - rewrite map_fold_insert_first_key by assumption.
    destruct (ma !! i) as [av|] eqn:Hai.
    + destruct (IH O r Hp) as (O' & Happ & HO').
      exists O'. split; [assumption|].
      intros k. rewrite HO'.
      destruct (decide (i = k)) as [<-|Hne].
      * rewrite lookup_insert_eq, Hi, Hai. reflexivity.
      * rewrite lookup_insert_ne by assumption. reflexivity.
    + cbn [apply_patch apply_op].
      rewrite (add_at_snoc _ _ _ _ _ Hp). cbn [mbind option_bind].
      destruct (IH (<[i := x]> O) (put p (JObj (<[i := x]> O)) r)) as (O' & Happ & HO').
      { apply (obj_path_put _ _ _ _ Hp). }
      exists O'. split.
      * rewrite Happ, (put_put _ _ _ _ _ Hp). reflexivity.
      * intros k. rewrite HO'.
        destruct (decide (i = k)) as [<-|Hne].
        -- rewrite !lookup_insert_eq, Hi, Hai. reflexivity.
        -- rewrite !lookup_insert_ne by assumption. reflexivity.
Qed.

(** Applying [diff p a b] to a document that holds [a] at [p] puts [b]
    there. *)
Lemma diff_sound (a : json) : diff_sound_at a.
Proof.
  induction a as [|x|x|x|la _|ma IH] using json_ind'; intros b p r Hp;
    try (rewrite diff_leaf by reflexivity;
         destruct (jeqb _ b) eqn:E;
         [ apply jeqb_eq in E; subst b; simpl; rewrite (put_id _ _ _ Hp); reflexivity
         | simpl; rewrite (replace_at_put _ _ _ _ Hp); reflexivity ]).
  destruct b as [| | | | |mb];
    try (rewrite diff_leaf by reflexivity;
         destruct (jeqb _ _) eqn:E;
         [ apply jeqb_eq in E; discriminate
         | simpl; rewrite (replace_at_put _ _ _ _ Hp); reflexivity ]).
  rewrite diff_obj, apply_patch_app.
  destruct (diff_shared_members mb p ma IH ma r) as (O1 & -> & HO1); [auto|assumption|].
  cbn [mbind option_bind].
  destruct (diff_new_members ma p mb O1 (put p (JObj O1) r)) as (O2 & -> & HO2).
  { apply (obj_path_put _ _ _ _ Hp). }
  rewrite (put_put _ _ _ _ _ Hp). do 3 f_equal.
  apply map_eq. intros k. rewrite HO2, HO1.
  destruct (ma !! k) as [av|] eqn:Hak.
  - destruct (decide (is_Some (Some av))) as [_|Hn]; [|exfalso; apply Hn; eauto].
    destruct (mb !! k); reflexivity.
  - destruct (decide (is_Some (@None json))) as [[? ?]|]; [discriminate|].
    destruct (mb !! k); reflexivity.
Qed.

Lemma map_fold_nil {A B : Type} (f : string -> A -> list B -> list B) (m : gmap string A) :
  (forall k v acc, m !! k = Some v -> f k v acc = acc) ->
  map_fold f [] m = [].
Proof.
  induction m as [|i x m Hi Hfirst IH] using map_first_key_ind; intros Hf.
  - apply map_fold_empty.
  - rewrite map_fold_insert_first_key by assumption.
    rewrite Hf by apply lookup_insert_eq.
    apply IH. intros k v acc Hk. apply Hf.
    rewrite lookup_insert_ne; [assumption | congruence].
Qed.

(** Equal documents need no operation. *)
Lemma diff_refl (a : json) : forall p, diff p a a = [].
Proof.
  induction a as [|x|x|x|la _|ma IH] using json_ind'; intros p;
    try (rewrite diff_leaf by reflexivity; rewrite jeqb_refl; reflexivity).
  rewrite diff_obj.
  rewrite (map_fold_nil _ ma), (map_fold_nil _ ma); [reflexivity| |].
  - intros k v acc Hk. rewrite Hk. reflexivity.
  - intros k v acc Hk. rewrite Hk, (IH k v Hk). reflexivity.
Qed.

(** Applied to the origin, the patch yields the target. *)
Lemma CreatePatch_sound (origin target : json) :
  apply_patch (CreatePatch origin target) origin = Some target.
Proof.
  unfold CreatePatch.
  rewrite (diff_sound origin target [] origin); reflexivity.
Qed.

(** The patch is empty exactly when the two documents are equal. *)
Lemma CreatePatch_nil_iff (a b : json) : CreatePatch a b = [] <-> a = b.
Proof.
  split.
  - intros Hnil. pose proof (CreatePatch_sound a b) as Hrt.
    rewrite Hnil in Hrt. simpl in Hrt. congruence.
  - intros <-. apply diff_refl.
Qed.

Lemma generateJsonPatch_roundtrip (origin target : Pod) :
  apply_patch (generateJsonPatch origin target) (encodePod origin)
  = Some (encodePod target).
Proof. apply CreatePatch_sound. Qed.

(** C6.  Round trip of the patch generator: for every pair of documents,
    applying the operations of [CreatePatch origin target] in order to
    [origin] succeeds and yields [target]; objects are finite maps, so equality
    of documents is semantic equality.  In particular the patch
    [generateJsonPatch] computes for two pods turns the encoding of the first
    into the encoding of the second. *)
Theorem CreatePatch_roundtrip :
  (forall origin target : json,
     apply_patch (CreatePatch origin target) origin = Some target)
  /\ (forall origin target : Pod,
        apply_patch (generateJsonPatch origin target) (encodePod origin)
        = Some (encodePod target)).
Proof.
  split.
  - intros origin target. unfold CreatePatch.
    rewrite (diff_sound origin target [] origin); reflexivity.
  - intros origin target. unfold generateJsonPatch, CreatePatch.
    rewrite (diff_sound (encodePod origin) (encodePod target) [] (encodePod origin));
      reflexivity.
Qed.

(** Membership in a fold that concatenates one list per member. *)
Lemma elem_of_map_fold_app {A B : Type} (f : string -> A -> list B -> list B)
    (g : string -> A -> list B) (m : gmap string A) (o : B) :
  (forall k v acc, f k v acc = g k v ++ acc) ->
  o ∈ map_fold f [] m <-> exists k v, m !! k = Some v /\ o ∈ g k v.
Proof.
  intros Hf.
  induction m as [|i x m Hi Hfirst IH] using map_first_key_ind.
  - rewrite map_fold_empty. split.
    + intros H. inversion H.
    + intros (k & v & Hk & _). rewrite lookup_empty in Hk. discriminate.
  - rewrite map_fold_insert_first_key by assumption.
    rewrite Hf, elem_of_app, IH. split.
    + intros [Ho|(k & v & Hk & Ho)].
      * exists i, x. split; [apply lookup_insert_eq | assumption].
      * exists k, v. split; [|assumption].
        rewrite lookup_insert_ne; [assumption | congruence].
    + intros (k & v & Hk & Ho).
      destruct (decide (i = k)) as [<-|Hne].
      * rewrite lookup_insert_eq in Hk. injection Hk as <-. left. assumption.
      * rewrite lookup_insert_ne in Hk by assumption. right. eauto.
Qed.

(** The operations on a member both objects have are part of the patch. *)
Lemma diff_in_shared p ma mb k av bv o :
  ma !! k = Some av -> mb !! k = Some bv ->
  o ∈ diff (p ++ [k]) av bv -> o ∈ diff p (JObj ma) (JObj mb).
Proof.
  intros Ha Hb Ho. rewrite diff_obj, elem_of_app. left.
  apply (elem_of_map_fold_app _
           (fun k av => match mb !! k with
                        | Some bv => diff (p ++ [k]) av bv
                        | None => [Remove (p ++ [k])]
                        end)); [reflexivity|].
  exists k, av. rewrite Hb. auto.
Qed.

(** A member only the target has is added. *)
Lemma diff_in_added p ma mb k bv :
  ma !! k = None -> mb !! k = Some bv ->
  Add (p ++ [k]) bv ∈ diff p (JObj ma) (JObj mb).
Proof.
  intros Ha Hb. rewrite diff_obj, elem_of_app. right.
  apply (elem_of_map_fold_app _
           (fun k bv => match ma !! k with
                        | Some _ => []
                        | None => [Add (p ++ [k]) bv]
                        end)).
  - intros k' v acc. destruct (ma !! k'); reflexivity.
  - exists k, bv. rewrite Ha. split; [assumption | apply list_elem_of_here].
Qed.

(** Where the operations on two objects come from. *)
Lemma diff_obj_inv p ma mb o :
  o ∈ diff p (JObj ma) (JObj mb) ->
  exists k,
    (exists av bv, ma !! k = Some av /\ mb !! k = Some bv /\ o ∈ diff (p ++ [k]) av bv)
    \/ (is_Some (ma !! k) /\ mb !! k = None /\ o = Remove (p ++ [k]))
    \/ (ma !! k = None /\ exists bv, mb !! k = Some bv /\ o = Add (p ++ [k]) bv).
Proof.
  rewrite diff_obj, elem_of_app. intros [Ho|Ho].
  - apply (elem_of_map_fold_app _
             (fun k av => match mb !! k with
                          | Some bv => diff (p ++ [k]) av bv
                          | None => [Remove (p ++ [k])]
                          end)) in Ho; [|reflexivity].
    destruct Ho as (k & av & Hk & Ho). exists k.
    destruct (mb !! k) as [bv|] eqn:Hb.
    + left. eauto.
    + right. left. apply list_elem_of_singleton in Ho. eauto.
  - apply (elem_of_map_fold_app _
             (fun k bv => match ma !! k with
                          | Some _ => []
                          | None => [Add (p ++ [k]) bv]
                          end)) in Ho.
    2:{ intros k' v acc. destruct (ma !! k'); reflexivity. }
    destruct Ho as (k & bv & Hk & Ho). exists k.
    destruct (ma !! k) as [av|] eqn:Ha; [inversion Ho|].
    right. right. apply list_elem_of_singleton in Ho. eauto.
Qed.

(** Every operation of [diff p a b] acts at or below [p]. *)
Lemma diff_ops_under (a : json) :
  forall b p o, o ∈ diff p a b -> p `prefix_of` op_path o.
Proof.
  induction a as [|x|x|x|la _|ma IH] using json_ind'; intros b p o Ho;
    try (rewrite diff_leaf in Ho by reflexivity;
         destruct (jeqb _ b); [inversion Ho|];
         apply list_elem_of_singleton in Ho; subst o; reflexivity).
  destruct b as [| | | | |mb];
    try (rewrite diff_leaf in Ho by reflexivity;
         destruct (jeqb _ _); [inversion Ho|];
         apply list_elem_of_singleton in Ho; subst o; reflexivity).
  apply diff_obj_inv in Ho.
  destruct Ho as (k & [(av & bv & Ha & Hb & Ho)|[(_ & _ & ->)|(_ & bv & _ & ->)]]).
  - apply (prefix_app_l _ _ [k]). apply (IH k av Ha bv _ _ Ho).
  - apply prefix_app_r. reflexivity.
  - apply prefix_app_r. reflexivity.
Qed.

(** Two objects that differ in one member only: the operations are those on
    that member. *)
Lemma diff_frame p ma mb k0 o :
  (forall k, k <> k0 -> ma !! k = mb !! k) ->
  o ∈ diff p (JObj ma) (JObj mb) ->
  (exists av bv, ma !! k0 = Some av /\ mb !! k0 = Some bv /\ o ∈ diff (p ++ [k0]) av bv)
  \/ ((ma !! k0 = None \/ mb !! k0 = None) /\ op_path o = p ++ [k0]).
Proof.
  intros Hsame Ho. apply diff_obj_inv in Ho.
  destruct Ho as (k & Hk).
  destruct (decide (k = k0)) as [->|Hne].
  - destruct Hk as [H|[(_ & Hb & ->)|(Ha & bv & _ & ->)]]; [left; exact H | |];
      right; auto.
  - exfalso. specialize (Hsame k Hne).
    destruct Hk as [(av & bv & Ha & Hb & Ho)|[([av Ha] & Hb & _)|(Ha & bv & Hb & _)]].
    + assert (av = bv) by congruence. subst bv.
      rewrite diff_refl in Ho. inversion Ho.
    + congruence.
    + congruence.
Qed.

(** ** The encoding of a pod *)

Lemma lookup_members_cons (k : string) (f : string * option json)
    (rest : list (string * option json)) :
  members (f :: rest) !! k =
  if decide (f.1 = k)
  then match f.2 with
       | Some v => Some v
       | None => members rest !! k
       end
  else members rest !! k.
Proof.
  destruct f as [k0 [v|]]; cbn [fst snd];
    change (members ((k0, Some v) :: rest)) with (<[k0 := v]> (members rest))
    || change (members ((k0, @None json) :: rest)) with (members rest);
    destruct (decide (k0 = k)) as [->|Hne]; try reflexivity.
  - apply lookup_insert_eq.
  - apply lookup_insert_ne. assumption.
Qed.

Lemma lookup_members_nil (k : string) : members [] !! k = None.
Proof. apply lookup_empty. Qed.

Ltac members_lookup :=
  unfold obj;
  repeat (rewrite lookup_members_cons; cbn [fst snd];
          first [ rewrite decide_True by reflexivity
                | rewrite decide_False by discriminate ]);
  try rewrite lookup_members_nil.

Lemma encodePod_metadata (p : Pod) :
  get ["metadata"] (encodePod p) = Some (encodeObjectMeta (pod_ObjectMeta p)).
Proof. unfold encodePod. cbn [get]. members_lookup. reflexivity. Qed.

Lemma encodePod_spec (p : Pod) :
  get ["spec"] (encodePod p) = Some (encodePodSpec (pod_Spec p)).
Proof. unfold encodePod. cbn [get]. members_lookup. reflexivity. Qed.

Lemma encodeObjectMeta_labels (m : ObjectMeta) :
  get ["labels"] (encodeObjectMeta m) = enc_opt_map (meta_Labels m).
Proof.
  unfold encodeObjectMeta. cbn [get]. members_lookup.
  destruct (enc_string (meta_Name m)), (enc_string (meta_UID m)),
    (enc_opt_map (meta_Labels m)); reflexivity.
Qed.

Lemma encodePodSpec_affinity (s : PodSpec) :
  get ["affinity"] (encodePodSpec s) = encodeAffinity <$> spec_Affinity s.
Proof.
  unfold encodePodSpec. cbn [get]. members_lookup.
  destruct (spec_Affinity s); reflexivity.
Qed.

Lemma get_app (p q : Pointer) (doc : json) :
  get (p ++ q) doc = get p doc ≫= get q.
Proof.
  revert doc. induction p as [|k p IH]; intros doc; [reflexivity|].
  simpl. destruct doc as [| | | |l|m]; try reflexivity.
  - destruct (index_of_token k) as [i|]; [|reflexivity]. simpl.
    destruct (l !! i); simpl; [apply IH | reflexivity].
  - destruct (m !! k); simpl; [apply IH | reflexivity].
Qed.

Lemma encodePod_labels (p : Pod) :
  get ["metadata"; "labels"] (encodePod p) = enc_opt_map (pod_Labels p).
Proof.
  change ["metadata"; "labels"] with (["metadata"] ++ ["labels"]).
  rewrite get_app, encodePod_metadata. apply encodeObjectMeta_labels.
Qed.

Lemma encodePod_affinity (p : Pod) :
  get ["spec"; "affinity"] (encodePod p)
  = encodeAffinity <$> spec_Affinity (pod_Spec p).
Proof.
  change ["spec"; "affinity"] with (["spec"] ++ ["affinity"]).
  rewrite get_app, encodePod_spec. apply encodePodSpec_affinity.
Qed.

(** ** The admission path *)

(** The patch of a response is the diff from the decoded pod to its target. *)
Lemma Admit_patch (codecs : Decoder) (request : AdmissionRequest) :
  aresp_Patch (Admit codecs request)
  = generateJsonPatch (fst (Decode codecs (areq_Object_Raw request) gvkPod zeroPod))
      (mutatePod (fst (Decode codecs (areq_Object_Raw request) gvkPod zeroPod))).
Proof. reflexivity. Qed.

Lemma withTestLabel_labels (p : Pod) :
  pod_Labels (withTestLabel p)
  = Some (<["QuanTest" := "hello1"]> (default ∅ (pod_Labels p))).
Proof. unfold withTestLabel. destruct (pod_Labels p); reflexivity. Qed.

Lemma withTestLabel_spec (p : Pod) : pod_Spec (withTestLabel p) = pod_Spec p.
Proof. reflexivity. Qed.

Lemma withTestLabel_annotations (p : Pod) :
  pod_Annotations (withTestLabel p) = pod_Annotations p.
Proof. reflexivity. Qed.

Lemma mutatePodAffinity_meta (p : Pod) (w : string) :
  pod_ObjectMeta (mutatePodAffinity p w) = pod_ObjectMeta p.
Proof.
  unfold mutatePodAffinity.
  destruct (map_get (pod_Annotations p) AnnotationAffinityAssistantName); reflexivity.
Qed.

Lemma mutatePod_labels (p : Pod) :
  pod_Labels (mutatePod p)
  = Some (<["QuanTest" := "hello1"]> (default ∅ (pod_Labels p))).
Proof.
  unfold mutatePod. rewrite withTestLabel_labels.
  destruct (map_get (pod_Labels p) "tekton.dev/pipelineRun"); [|reflexivity].
  unfold pod_Labels. rewrite mutatePodAffinity_meta. reflexivity.
Qed.

Lemma mutatePod_annotations (p : Pod) :
  pod_Annotations (mutatePod p) = pod_Annotations p.
Proof.
  unfold mutatePod. rewrite withTestLabel_annotations.
  destruct (map_get (pod_Labels p) "tekton.dev/pipelineRun"); [|reflexivity].
  unfold pod_Annotations. rewrite mutatePodAffinity_meta. reflexivity.
Qed.

(** With the marker annotation the affinity step returns at line 280. *)
Lemma mutatePod_marked (p : Pod) (v : string) :
  map_get (pod_Annotations p) AnnotationAffinityAssistantName = Some v ->
  mutatePod p = withTestLabel p.
Proof.
  intros Hm. unfold mutatePod, mutatePodAffinity. rewrite Hm.
  destruct (map_get (pod_Labels p) "tekton.dev/pipelineRun"); reflexivity.
Qed.

(** A pod that already has the label is left as it is. *)
Lemma withTestLabel_id (p : Pod) :
  map_get (pod_Labels p) "QuanTest" = Some "hello1" -> withTestLabel p = p.
Proof.
  destruct p as [[name uid labels annotations owners] spec].
  unfold withTestLabel, pod_Labels, set_Labels, map_get. simpl.
  destruct labels as [l|]; [|discriminate].
  intros Hl. rewrite insert_id by assumption. reflexivity.
Qed.

(** The encoded labels tell whether a label is there. *)
Lemma enc_opt_map_insert_inv (m : option (gmap string string)) (l : gmap string string)
    (k v : string) :
  enc_opt_map m = enc_opt_map (Some (<[k := v]> l)) -> map_get m k = Some v.
Proof.
  unfold enc_opt_map. simpl. unfold enc_map at 2.
  rewrite bool_decide_eq_false_2 by apply insert_non_empty.
  destruct m as [l0|]; simpl; [|discriminate].
  unfold enc_map. destruct (bool_decide (l0 = ∅)); [discriminate|].
  intros [= Heq].
  assert (Hk : (JStr <$> l0) !! k = Some (JStr v)).
  { rewrite Heq, lookup_fmap, lookup_insert_eq. reflexivity. }
  rewrite lookup_fmap in Hk.
  destruct (l0 !! k) as [v0|]; simpl in Hk; congruence.
Qed.

(** The patch of a request is empty only when the pod already has the test
    label. *)
Lemma patch_nil_has_label (p : Pod) :
  generateJsonPatch p (mutatePod p) = [] ->
  map_get (pod_Labels p) "QuanTest" = Some "hello1".
Proof.
  intros Hnil. apply CreatePatch_nil_iff in Hnil.
  apply (f_equal (get ["metadata"; "labels"])) in Hnil.
  rewrite !encodePod_labels, mutatePod_labels in Hnil.
  eapply enc_opt_map_insert_inv. exact Hnil.
Qed.

(** When only the labels change, every operation of the patch acts at or
    below [/metadata/labels]. *)
Lemma label_patch_under (p : Pod) (o : Operation) :
  o ∈ generateJsonPatch p (withTestLabel p) ->
  ["metadata"; "labels"] `prefix_of` op_path o.
Proof.
  unfold generateJsonPatch, CreatePatch, encodePod, obj. intros Ho.
  apply (diff_frame [] _ _ "metadata") in Ho.
  2:{ intros k Hk. rewrite !lookup_members_cons. cbn [fst snd].
      rewrite !(decide_False (P := "metadata" = k)) by congruence. reflexivity. }
  destruct Ho as [(av & bv & Ha & Hb & Ho)|[[Hn|Hn] _]].
  - revert Ha Hb. members_lookup. intros [= <-] [= <-].
    unfold encodeObjectMeta, obj in Ho. cbn [app] in Ho.
    apply (diff_frame ["metadata"] _ _ "labels") in Ho.
    2:{ intros k Hk. rewrite !lookup_members_cons. cbn [fst snd].
        rewrite !(decide_False (P := "labels" = k)) by congruence. reflexivity. }
    destruct Ho as [(av & bv & _ & _ & Ho)|[_ ->]]; [|reflexivity].
    apply (diff_ops_under _ _ _ _ Ho).
  - revert Hn. members_lookup. discriminate.
  - revert Hn. members_lookup. discriminate.
Qed.

(** C1 (counterexample).  A payload the decoder rejects is answered with
    [Allowed = true] and no reason: the claim's deny response is not what
    [Admit] returns. *)
Lemma Admit_allows_undecodable_payload :
  snd (Decode sampleDecoder (areq_Object_Raw (requestOf "{")) gvkPod zeroPod)
  = Some "couldn't get version/kind; json parse error"%string
  /\ aresp_Allowed (Admit sampleDecoder (requestOf "{")) = true
  /\ aresp_Result (Admit sampleDecoder (requestOf "{")) = None.
Proof. vm_compute. auto. Qed.

(** C1 (amended).  [Admit] answers every request, decodable or not, with
    [Allowed = true], no reason and the JSON Patch type.  The decode error is
    discarded: the response is determined by the object the decoder left
    behind, and when that is the zero pod the patch is the single operation
    that adds [/metadata/labels] with the test label. *)
Theorem Admit_ignores_decode_error (codecs : Decoder) (request : AdmissionRequest) :
  let decoded := Decode codecs (areq_Object_Raw request) gvkPod zeroPod in
  aresp_Allowed (Admit codecs request) = true
  /\ aresp_Result (Admit codecs request) = None
  /\ aresp_PatchType (Admit codecs request) = Some PatchTypeJSONPatch
  /\ (forall codecs' request',
        fst (Decode codecs' (areq_Object_Raw request') gvkPod zeroPod) = fst decoded ->
        Admit codecs' request' = Admit codecs request)
  /\ (fst decoded = zeroPod ->
      aresp_Patch (Admit codecs request)
      = [Add ["metadata"; "labels"] (JObj {[ "QuanTest" := JStr "hello1" ]})]).
Proof.
  cbv zeta. repeat split.
  - intros codecs' request' Heq. unfold Admit. rewrite Heq. reflexivity.
  - intros Hzero. rewrite Admit_patch, Hzero.
    vm_compute. reflexivity.
Qed.

(** C2 (counterexample).  A pod that carries the marker annotation and lacks
    the test label gets a patch with one operation. *)
Lemma Admit_patches_marked_pod :
  map_get (pod_Annotations markedPod) AnnotationAffinityAssistantName
  = Some "affinity-assistant-1"%string
  /\ fst (Decode sampleDecoder (areq_Object_Raw (requestOf "marked")) gvkPod zeroPod)
     = markedPod
  /\ aresp_Patch (Admit sampleDecoder (requestOf "marked"))
     = [Add ["metadata"; "labels"; "QuanTest"] (JStr "hello1")].
Proof. vm_compute. auto. Qed.

(** C2 (amended).  When the decoded object carries the marker annotation,
    whatever its owning-workflow label, [Admit] allows the request and leaves
    the object's spec and annotations as they are: the target differs from the
    origin by the test label alone.  The patch turns the origin into that
    target, each of its operations acts at or below [/metadata/labels], and it
    is empty exactly when the object already carries [QuanTest = hello1]. *)
Theorem Admit_marked_pod (codecs : Decoder) (request : AdmissionRequest) (v : string) :
  let pod := fst (Decode codecs (areq_Object_Raw request) gvkPod zeroPod) in
  map_get (pod_Annotations pod) AnnotationAffinityAssistantName = Some v ->
  aresp_Allowed (Admit codecs request) = true
  /\ mutatePod pod = withTestLabel pod
  /\ pod_Spec (mutatePod pod) = pod_Spec pod
  /\ pod_Annotations (mutatePod pod) = pod_Annotations pod
  /\ apply_patch (aresp_Patch (Admit codecs request)) (encodePod pod)
     = Some (encodePod (withTestLabel pod))
  /\ (forall o, o ∈ aresp_Patch (Admit codecs request) ->
                ["metadata"; "labels"] `prefix_of` op_path o)
  /\ (aresp_Patch (Admit codecs request) = []
      <-> map_get (pod_Labels pod) "QuanTest" = Some "hello1").
Proof.
  intros pod Hmarker.
  assert (Hm : mutatePod pod = withTestLabel pod) by apply (mutatePod_marked _ _ Hmarker).
  split; [reflexivity|]. split; [exact Hm|].
  split; [rewrite Hm; reflexivity|]. split; [apply mutatePod_annotations|].
  rewrite Admit_patch. fold pod. split; [|split].
  - rewrite generateJsonPatch_roundtrip, Hm. reflexivity.
  - intros o. rewrite Hm. apply label_patch_under.
  - split; [apply patch_nil_has_label|].
    intros Hl. rewrite Hm, (withTestLabel_id _ Hl).
    apply CreatePatch_nil_iff. reflexivity.
Qed.

Lemma Admit_marked_pod_witness :
  map_get (pod_Annotations markedPod) AnnotationAffinityAssistantName
  = Some "affinity-assistant-1"%string
  /\ pod_Spec (mutatePod markedPod) = pod_Spec markedPod
  /\ (aresp_Patch (Admit sampleDecoder (requestOf "marked")) = []
      <-> map_get (pod_Labels markedPod) "QuanTest" = Some "hello1").
Proof.
  split; [reflexivity|].
  pose proof (Admit_marked_pod sampleDecoder (requestOf "marked") "affinity-assistant-1"
                eq_refl) as H.
  split; [apply H | apply H].
Defined.



Lemma mutatePod_workflow (p : Pod) (w : string) :
  map_get (pod_Labels p) "tekton.dev/pipelineRun" = Some w ->
  map_get (pod_Annotations p) AnnotationAffinityAssistantName = None ->
  pod_Spec (mutatePod p)
  = {| spec_Affinity :=
         Some (mergeAffinityWithAffinityAssistant
                 (default zeroAffinity (spec_Affinity (pod_Spec p)))
                 (getPodAffinityValue w));
       spec_NodeName := spec_NodeName (pod_Spec p) |}.
Proof.
  intros Hl Hm. unfold mutatePod, mutatePodAffinity. rewrite Hl, Hm.
  rewrite withTestLabel_spec. destruct (spec_Affinity (pod_Spec p)); reflexivity.
Qed.

(** C4.  When the decoded object carries the owning-workflow label with value
    [w], has no scheduling constraints and no marker annotation, the target's
    constraints hold exactly one required rule: topology key
    [kubernetes.io/hostname], match value [getPodAffinityValue w].  The
    response patch contains the operation that adds [/spec/affinity] with these
    constraints; the origin has no such member, and the patched document has
    it. *)
Theorem Admit_adds_affinity (codecs : Decoder) (request : AdmissionRequest) (w : string) :
  let pod := fst (Decode codecs (areq_Object_Raw request) gvkPod zeroPod) in
  map_get (pod_Labels pod) "tekton.dev/pipelineRun" = Some w ->
  spec_Affinity (pod_Spec pod) = None ->
  map_get (pod_Annotations pod) AnnotationAffinityAssistantName = None ->
  let constraints := constraintsFor (getPodAffinityValue w) in
  spec_Affinity (pod_Spec (mutatePod pod)) = Some constraints
  /\ Add ["spec"; "affinity"] (encodeAffinity constraints)
       ∈ aresp_Patch (Admit codecs request)
  /\ get ["spec"; "affinity"] (encodePod pod) = None
  /\ exists doc,
       apply_patch (aresp_Patch (Admit codecs request)) (encodePod pod) = Some doc
       /\ get ["spec"; "affinity"] doc = Some (encodeAffinity constraints).
Proof.
  intros pod Hl Hnone Hm constraints.
  assert (Hspec : pod_Spec (mutatePod pod)
                  = {| spec_Affinity := Some constraints;
                       spec_NodeName := spec_NodeName (pod_Spec pod) |}).
  { rewrite (mutatePod_workflow _ _ Hl Hm), Hnone. reflexivity. }
  split; [rewrite Hspec; reflexivity|].
  rewrite Admit_patch. fold pod.
  split; [|split].
  - unfold generateJsonPatch, CreatePatch, encodePod, obj.
    apply (diff_in_shared [] _ _ "spec" (encodePodSpec (pod_Spec pod))
             (encodePodSpec (pod_Spec (mutatePod pod)))).
    + members_lookup. reflexivity.
    + members_lookup. reflexivity.
    + rewrite Hspec. unfold encodePodSpec, obj. cbn [app].
      apply (diff_in_added ["spec"] _ _ "affinity").
      * rewrite Hnone. cbn [fmap option_fmap option_map]. members_lookup.
        reflexivity.
      * cbn [fmap option_fmap option_map spec_Affinity]. members_lookup. reflexivity.
  - rewrite encodePod_affinity, Hnone. reflexivity.
  - exists (encodePod (mutatePod pod)). split.
    + apply generateJsonPatch_roundtrip.
    + rewrite encodePod_affinity, Hspec. reflexivity.
Qed.

Lemma Admit_adds_affinity_witness :
  map_get (pod_Labels workflowPod) "tekton.dev/pipelineRun" = Some "wf-1"%string
  /\ spec_Affinity (pod_Spec workflowPod) = None
  /\ map_get (pod_Annotations workflowPod) AnnotationAffinityAssistantName = None
  /\ Add ["spec"; "affinity"]
       (encodeAffinity (constraintsFor "custom-pod-affinity-b3dcb3863c"))
       ∈ aresp_Patch (Admit sampleDecoder (requestOf "workflow")).
Proof.
  split; [reflexivity|]. split; [reflexivity|]. split; [reflexivity|].
  assert (Htoken : getPodAffinityValue "wf-1" = "custom-pod-affinity-b3dcb3863c"%string)
    by (vm_compute; reflexivity).
  rewrite <- Htoken.
  apply (Admit_adds_affinity sampleDecoder (requestOf "workflow") "wf-1" eq_refl eq_refl eq_refl).
Defined.

(** The patch of that request, in full: the constraints and the test label. *)
Example Admit_workflow_patch :
  aresp_Patch (Admit sampleDecoder (requestOf "workflow"))
  = [ Add ["spec"; "affinity"]
        (JObj {[ "podAffinity" :=
                 JObj {[ "requiredDuringSchedulingIgnoredDuringExecution" :=
                         JArr [ JObj (<[ "labelSelector" :=
                                         JObj {[ "matchLabels" :=
                                                 JObj {[ LabelInstance :=
                                                         JStr "custom-pod-affinity-b3dcb3863c" ]} ]} ]>
                                        {[ "topologyKey" := JStr "kubernetes.io/hostname" ]}) ] ]} ]});
      Add ["metadata"; "labels"; "QuanTest"] (JStr "hello1") ].
Proof. vm_compute. reflexivity. Qed.

Lemma mutatePod_required (p : Pod) (w : string) :
  map_get (pod_Labels p) "tekton.dev/pipelineRun" = Some w ->
  map_get (pod_Annotations p) AnnotationAffinityAssistantName = None ->
  requiredRules (mutatePod p)
  = requiredRules p ++ [podAffinityTermUsingAffinityAssistant (getPodAffinityValue w)].
Proof.
  intros Hl Hm. unfold requiredRules at 1.
  rewrite (mutatePod_workflow _ _ Hl Hm). unfold requiredRules.
  destruct (spec_Affinity (pod_Spec p)) as [a|]; simpl; [|reflexivity].
  destruct (aff_PodAffinity a); reflexivity.
Qed.

Lemma mutatePod_keeps_workflow (p : Pod) (w : string) :
  map_get (pod_Labels p) "tekton.dev/pipelineRun" = Some w ->
  map_get (pod_Labels (mutatePod p)) "tekton.dev/pipelineRun" = Some w.
Proof.
  intros Hl. rewrite mutatePod_labels. simpl.
  rewrite lookup_insert_ne by discriminate.
  destruct (pod_Labels p); [exact Hl | discriminate].
Qed.

(** C10.  For a pod that carries the owning-workflow label and no marker
    annotation, the mutation appends the new rule after the required rules the
    pod already has, which stay in place and in order; nothing is replaced.
    Admitting the result again appends once more, so [n] admissions leave [n]
    copies of the rule behind the original ones. *)
Theorem mutatePod_appends_rule (pod : Pod) (w : string) (n : nat) :
  map_get (pod_Labels pod) "tekton.dev/pipelineRun" = Some w ->
  map_get (pod_Annotations pod) AnnotationAffinityAssistantName = None ->
  let rule := podAffinityTermUsingAffinityAssistant (getPodAffinityValue w) in
  requiredRules (mutatePod pod) = requiredRules pod ++ [rule]
  /\ requiredRules (Nat.iter n mutatePod pod) = requiredRules pod ++ repeat rule n.
Proof.
  intros Hl Hm rule. split; [apply (mutatePod_required _ _ Hl Hm)|].
  assert (Hinv : map_get (pod_Labels (Nat.iter n mutatePod pod)) "tekton.dev/pipelineRun"
                 = Some w
                 /\ map_get (pod_Annotations (Nat.iter n mutatePod pod))
                      AnnotationAffinityAssistantName = None
                 /\ requiredRules (Nat.iter n mutatePod pod)
                    = requiredRules pod ++ repeat rule n).
  { induction n as [|n (IHl & IHm & IHr)]; simpl.
    - rewrite app_nil_r. auto.
    - split; [apply mutatePod_keeps_workflow, IHl|].
      split; [rewrite mutatePod_annotations; exact IHm|].
      rewrite (mutatePod_required _ _ IHl IHm), IHr, <- app_assoc.
      f_equal. fold rule. symmetry. apply (repeat_cons n rule). }
  apply Hinv.
Qed.

Lemma mutatePod_appends_rule_witness :
  requiredRules pinnedPod = [zoneTerm]
  /\ requiredRules (mutatePod pinnedPod)
     = [zoneTerm; podAffinityTermUsingAffinityAssistant (getPodAffinityValue "wf-1")]
  /\ requiredRules (mutatePod (mutatePod pinnedPod))
     = [zoneTerm; podAffinityTermUsingAffinityAssistant (getPodAffinityValue "wf-1");
        podAffinityTermUsingAffinityAssistant (getPodAffinityValue "wf-1")].
Proof.
  split; [reflexivity|].
  pose proof (mutatePod_appends_rule pinnedPod "wf-1" 2 eq_refl eq_refl) as [H1 H2].
  split; [exact H1 | exact H2].
Defined.

(** The pod of the request above, admitted a second time: the list of
    required rules is replaced by one that holds the rule twice. *)
Example Admit_again_duplicates :
  let rule :=
    JObj (<[ "labelSelector" :=
             JObj {[ "matchLabels" :=
                     JObj {[ LabelInstance := JStr "custom-pod-affinity-b3dcb3863c" ]} ]} ]>
            {[ "topologyKey" := JStr "kubernetes.io/hostname" ]}) in
  aresp_Patch (Admit sampleDecoder (requestOf "workflow, admitted once"))
  = [ Replace ["spec"; "affinity"; "podAffinity";
               "requiredDuringSchedulingIgnoredDuringExecution"]
        (JArr [rule; rule]) ].
Proof. vm_compute. reflexivity. Qed.

(** A pod without the owning-workflow label keeps its spec: the affinity step
    is not entered (line 225), and the target differs from the origin by the
    test label alone. *)
Theorem Admit_unlabelled_pod (codecs : Decoder) (request : AdmissionRequest) :
  let pod := fst (Decode codecs (areq_Object_Raw request) gvkPod zeroPod) in
  map_get (pod_Labels pod) "tekton.dev/pipelineRun" = None ->
  mutatePod pod = withTestLabel pod
  /\ pod_Spec (mutatePod pod) = pod_Spec pod
  /\ forall o, o ∈ aresp_Patch (Admit codecs request) ->
               ["metadata"; "labels"] `prefix_of` op_path o.
Proof.
  intros pod Hl.
  assert (Hm : mutatePod pod = withTestLabel pod) by (unfold mutatePod; rewrite Hl; reflexivity).
  split; [exact Hm|]. split; [rewrite Hm; reflexivity|].
  intros o. rewrite Admit_patch. fold pod. rewrite Hm. apply label_patch_under.
Qed.

Lemma Admit_unlabelled_pod_witness :
  map_get (pod_Labels zeroPod) "tekton.dev/pipelineRun" = None
  /\ pod_Spec (mutatePod zeroPod) = pod_Spec zeroPod.
Proof.
  split; [reflexivity|].
  apply (Admit_unlabelled_pod sampleDecoder (requestOf "{") eq_refl).
Defined.

(** ** The reconcile path *)

Lemma store_get_name name l c : store_get name l = Some c -> mwc_Name c = name.
Proof.
  induction l as [|d l IH]; simpl; [discriminate|].
  destruct (bool_decide (mwc_Name d = name)) eqn:Hd; [|exact IH].
  apply bool_decide_eq_true in Hd. congruence.
Qed.

Lemma store_get_replace name l c d :
  store_get name l = Some c -> mwc_Name d = name ->
  store_get name (store_replace d l) = Some d.
Proof.
  intros Hget Hd. induction l as [|x l IH]; simpl in *; [discriminate|].
  rewrite Hd.
  destruct (bool_decide (mwc_Name x = name)) eqn:Hx; simpl.
  - rewrite Hd, bool_decide_eq_true_2 by reflexivity. reflexivity.
  - rewrite Hx. apply IH. exact Hget.
Qed.

Lemma record_event_isLeader e w : w_isLeader (record_event e w) = w_isLeader w.
Proof. reflexivity. Qed.
Lemma record_event_secrets e w : w_secrets (record_event e w) = w_secrets w.
Proof. reflexivity. Qed.
Lemma record_event_webhooks e w : w_webhooks (record_event e w) = w_webhooks w.
Proof. reflexivity. Qed.
Lemma record_event_namespace e w : w_namespace (record_event e w) = w_namespace w.
Proof. reflexivity. Qed.
Lemma record_event_updateError e w : w_updateError (record_event e w) = w_updateError w.
Proof. reflexivity. Qed.
Lemma record_event_events e w : w_events (record_event e w) = e :: w_events w.
Proof. reflexivity. Qed.
Lemma set_webhooks_isLeader l w : w_isLeader (set_webhooks l w) = w_isLeader w.
Proof. reflexivity. Qed.
Lemma set_webhooks_secrets l w : w_secrets (set_webhooks l w) = w_secrets w.
Proof. reflexivity. Qed.
Lemma set_webhooks_webhooks l w : w_webhooks (set_webhooks l w) = l.
Proof. reflexivity. Qed.
Lemma set_webhooks_namespace l w : w_namespace (set_webhooks l w) = w_namespace w.
Proof. reflexivity. Qed.
Lemma set_webhooks_updateError l w : w_updateError (set_webhooks l w) = w_updateError w.
Proof. reflexivity. Qed.
Lemma set_webhooks_events l w : w_events (set_webhooks l w) = w_events w.
Proof. reflexivity. Qed.

Create Rewrite HintDb world.
#[local] Hint Rewrite record_event_isLeader record_event_secrets record_event_webhooks
  record_event_namespace record_event_updateError record_event_events
  set_webhooks_isLeader set_webhooks_secrets set_webhooks_webhooks
  set_webhooks_namespace set_webhooks_updateError set_webhooks_events : world.

Section ReconcilerFacts.

Variable E : option LabelSelector -> option LabelSelector -> option LabelSelector.
Variable ac : reconciler.

Lemma reconcileMutatingWebhook_run (caCert : option (list Z)) (w : World)
    (c : MutatingWebhookConfiguration) (ns : Namespace) :
  store_get (nn_Name (ac_key ac)) (w_webhooks w) = Some c ->
  w_namespace w = Ok ns ->
  let w' := record_event EvGetNamespace (record_event (EvGetWebhook (nn_Name (ac_key ac))) w) in
  reconcileMutatingWebhook E ac caCert w =
  match desiredRegistration E ac caCert ns c with
  | Err e => (Err e, w')
  | Ok current =>
      if bool_decide (c = current) then (Ok tt, w')
      else match w_updateError w with
           | Some msg =>
               (Err (UpdatingWebhook (External msg)), record_event (EvUpdate current false) w')
           | None =>
               (Ok tt, record_event (EvUpdate current true)
                         (set_webhooks (store_replace current (w_webhooks w)) w'))
           end
  end.
Proof.
  intros Hget Hns w'.
  unfold reconcileMutatingWebhook, desiredRegistration, bind, wrapping, getWebhook,
    getNamespace, fail, ret, SafeEqual, updateWebhook.
  rewrite Hget. autorewrite with world. rewrite Hns.
  destruct (reconcileEntries E ac caCert _ _) as [whs|e]; [|reflexivity].
  destruct (bool_decide (c = _)); [reflexivity|].
  autorewrite with world.
  destruct (w_updateError w); reflexivity.
Qed.

Lemma Reconcile_run (key : string) (w : World) (s : Secret) (caCert : option (list Z)) :
  w_isLeader w = true ->
  w_secrets w !! ac_secretName ac = Some s ->
  secret_Data s !! CACert = Some caCert ->
  Reconcile E ac key w
  = reconcileMutatingWebhook E ac caCert (record_event (EvGetSecret (ac_secretName ac)) w).
Proof.
  intros Hl Hs Hca.
  unfold Reconcile, bind, isLeaderFor, getSecret. rewrite Hl. cbn beta iota delta [negb].
  rewrite Hs, Hca.
  reflexivity.
Qed.

Lemma reconcileEntry_again (caCert : option (list Z)) (name : string) (wh wh' : MutatingWebhook) :
  reapplies_cleanly E ->
  reconcileEntry E ac caCert name wh = Ok wh' ->
  reconcileEntry E ac caCert name wh' = Ok wh'.
Proof.
  intros HE. unfold reconcileEntry.
  destruct (bool_decide (wh_Name wh <> name)) eqn:Hn.
  - intros [= <-]. rewrite Hn. reflexivity.
  - destruct (cc_Service (wh_ClientConfig wh)) as [svc|]; [|discriminate].
    intros [= <-]. cbn [wh_Name wh_ClientConfig cc_Service wh_NamespaceSelector].
    rewrite Hn, HE. reflexivity.
Qed.

Lemma reconcileEntries_again (caCert : option (list Z)) (name : string)
    (whs whs' : list MutatingWebhook) :
  reapplies_cleanly E ->
  reconcileEntries E ac caCert name whs = Ok whs' ->
  reconcileEntries E ac caCert name whs' = Ok whs'.
Proof.
  intros HE. revert whs'. induction whs as [|wh whs IH]; intros whs'; simpl.
  - intros [= <-]. reflexivity.
  - destruct (reconcileEntry E ac caCert name wh) as [wh1|] eqn:H1; [|discriminate].
    destruct (reconcileEntries E ac caCert name whs) as [whs1|] eqn:H2; [|discriminate].
    intros [= <-]. simpl.
    rewrite (reconcileEntry_again _ _ _ _ HE H1), (IH _ eq_refl). reflexivity.
Qed.

(** The desired registration is its own desired registration. *)
Lemma desiredRegistration_again (caCert : option (list Z)) (ns : Namespace)
    (c d : MutatingWebhookConfiguration) :
  reapplies_cleanly E ->
  desiredRegistration E ac caCert ns c = Ok d ->
  desiredRegistration E ac caCert ns d = Ok d.
Proof.
  intros HE. unfold desiredRegistration. cbv zeta.
  destruct (reconcileEntries E ac caCert _ _) as [whs|] eqn:Hw; [|discriminate].
  intros [= <-].
  change (mwc_Name (set_OwnerReferences _ (set_Webhooks whs (set_OwnerReferences _ c))))
    with (mwc_Name (set_OwnerReferences
                      [NewControllerRef (ns_ObjectMeta ns)
                         {| gvk_Group := ""; gvk_Version := "v1"; gvk_Kind := "Namespace" |}] c)).
  cbn [mwc_Webhooks set_OwnerReferences set_Webhooks].
  cbn [mwc_Webhooks set_OwnerReferences set_Webhooks] in Hw.
  rewrite (reconcileEntries_again _ _ _ _ HE Hw). reflexivity.
Qed.

Lemma desiredRegistration_name (caCert : option (list Z)) (ns : Namespace)
    (c d : MutatingWebhookConfiguration) :
  desiredRegistration E ac caCert ns c = Ok d -> mwc_Name d = mwc_Name c.
Proof.
  unfold desiredRegistration. cbv zeta.
  destruct (reconcileEntries E ac caCert _ _); [|discriminate].
  intros [= <-]. reflexivity.
Qed.

End ReconcilerFacts.

Lemma commit_nil (w : World) : commit w [] None = w.
Proof. destruct w. reflexivity. Qed.

Lemma issued_commit (w : World) evs stored : issued w (commit w evs stored) = evs.
Proof.
  unfold issued, commit. cbn [w_events].
  rewrite length_app.
  replace (length evs + length (w_events w) - length (w_events w))%nat
    with (length evs) by lia.
  apply take_app_length.
Qed.

Lemma Reconcile_plan E ac key w :
  Reconcile E ac key w
  = (fst (fst (plan E ac key w)),
     commit w (snd (fst (plan E ac key w))) (snd (plan E ac key w))).
Proof.
  unfold plan. cbv zeta.
  destruct (w_isLeader w) eqn:Hl; cbn [negb].
  2:{ unfold Reconcile, bind, isLeaderFor, fail. rewrite Hl. cbn [negb fst snd].
      rewrite commit_nil. reflexivity. }
  destruct (w_secrets w !! ac_secretName ac) as [s|] eqn:Hs.
  2:{ unfold Reconcile, bind, isLeaderFor, getSecret. rewrite Hl. cbn [negb].
      rewrite Hs. destruct w; reflexivity. }
  destruct (secret_Data s !! CACert) as [caCert|] eqn:Hca.
  2:{ unfold Reconcile, bind, isLeaderFor, getSecret, fail. rewrite Hl. cbn [negb].
      rewrite Hs, Hca. destruct w; reflexivity. }
  rewrite (Reconcile_run E ac key w s caCert Hl Hs Hca).
  destruct (store_get (nn_Name (ac_key ac)) (w_webhooks w)) as [c|] eqn:Hget.
  2:{ unfold reconcileMutatingWebhook, bind, wrapping, getWebhook.
      autorewrite with world. rewrite Hget. destruct w; reflexivity. }
  destruct (w_namespace w) as [ns|e] eqn:Hns.
  2:{ unfold reconcileMutatingWebhook, bind, wrapping, getWebhook, getNamespace.
      autorewrite with world. rewrite Hget. autorewrite with world. rewrite Hns.
      destruct w; reflexivity. }
  rewrite (reconcileMutatingWebhook_run E ac caCert _ c ns);
    [|autorewrite with world; assumption..].
  destruct (desiredRegistration E ac caCert ns c) as [d|e]; [|destruct w; reflexivity].
  destruct (bool_decide (c = d)); [destruct w; reflexivity|].
  autorewrite with world.
  destruct (w_updateError w) eqn:Hu; destruct w; reflexivity.
Qed.

Lemma reconcileEntries_missing_service E ac caCert name whs wh :
  wh ∈ whs -> wh_Name wh = name -> cc_Service (wh_ClientConfig wh) = None ->
  reconcileEntries E ac caCert name whs = Err (MissingServiceReference name).
Proof.
  intros Hin Hname Hsvc. induction whs as [|x whs IH]; [inversion Hin|].
  simpl. unfold reconcileEntry at 1.
  destruct (decide (x = wh)) as [->|Hne].
  - rewrite bool_decide_eq_false_2 by (intros Hn; apply Hn; exact Hname).
    rewrite Hsvc, Hname. reflexivity.
  - assert (Hin' : wh ∈ whs).
    { apply elem_of_cons in Hin as [->|]; [contradiction Hne; reflexivity | assumption]. }
    rewrite (IH Hin').
    destruct (bool_decide (wh_Name x <> name)) eqn:Hx; [reflexivity|].
    destruct (cc_Service (wh_ClientConfig x)); [reflexivity|].
    apply bool_decide_eq_false in Hx.
    replace (wh_Name x) with name; [reflexivity|].
    destruct (decide (wh_Name x = name)); [congruence | contradiction].
Qed.







Lemma ensureExpressions_single (l : list LabelSelectorRequirement)
    (r : LabelSelectorRequirement) :
  ensureExpressions (ensureExpressions l [r]) [r] = ensureExpressions l [r].
Proof.
  unfold ensureExpressions. simpl.
  destruct (bool_decide (r ∈ l)) eqn:Hr.
  - rewrite Hr. reflexivity.
  - rewrite bool_decide_eq_true_2; [reflexivity|].
    apply elem_of_app. right. apply list_elem_of_here.
Qed.

(** The merge described by the specification changes nothing when applied
    again. *)
Lemma EnsureLabelSelectorExpressions_spec_reapplies :
  reapplies_cleanly EnsureLabelSelectorExpressions_spec.
Proof.
  intros [c|]; [|reflexivity].
  unfold EnsureLabelSelectorExpressions_spec, excludeSelector.
  cbn [ls_MatchLabels ls_MatchExpressions default id].
  rewrite ensureExpressions_single. reflexivity.
Qed.


(** The comparison tells the nil slice from the empty one.  The observed
    registration has a nil CA bundle and is otherwise in its desired form: with
    the empty slice in the secret the run sends one update, after which the
    store holds the empty bundle and a second run sends none; with the nil
    slice in the secret the registration is as desired and no update is
    sent. *)
Example Reconcile_empty_bundle_updates :
  let w := bareWorld (Some []) in
  let first := Reconcile EnsureLabelSelectorExpressions_spec sampleReconciler "key" w in
  let second :=
    Reconcile EnsureLabelSelectorExpressions_spec sampleReconciler "key" (snd first) in
  fst first = Ok tt
  /\ count_events is_update (issued w (snd first)) = 1%nat
  /\ map (fun c => map (fun wh => cc_CABundle (wh_ClientConfig wh)) (mwc_Webhooks c))
       (w_webhooks (snd first)) = [[Some []]]
  /\ fst second = Ok tt
  /\ count_events is_update (issued (snd first) (snd second)) = 0%nat.
Proof. vm_compute. repeat split. Qed.

Example Reconcile_nil_bundle_quiet :
  let w := bareWorld None in
  let first := Reconcile EnsureLabelSelectorExpressions_spec sampleReconciler "key" w in
  fst first = Ok tt
  /\ count_events is_update (issued w (snd first)) = 0%nat
  /\ w_webhooks (snd first) = [bareRegistration].
Proof. vm_compute. repeat split. Qed.

(** Likewise inside the namespace selector: an observed exclusion expression
    whose [Values] is the empty slice is not the wanted one, whose [Values] is
    nil, and the run sends an update. *)
Example Reconcile_empty_values_updates :
  let w :=
    {| w_isLeader := true;
       w_secrets := w_secrets (bareWorld None);
       w_webhooks := [emptyValuesRegistration];
       w_namespace := w_namespace staleWorld;
       w_updateError := None;
       w_events := [] |} in
  let first := Reconcile EnsureLabelSelectorExpressions_spec sampleReconciler "key" w in
  fst first = Ok tt
  /\ count_events is_update (issued w (snd first)) = 1%nat.
Proof. vm_compute. repeat split. Qed.

(** C8.  When leadership is not held, [Reconcile] returns the skip signal for
    the key it was given, which [IsSkipKey] tells apart from a failure, and
    leaves the world as it found it: it issues no call at all, read or write. *)
Theorem Reconcile_not_leader
    (E : option LabelSelector -> option LabelSelector -> option LabelSelector)
    (ac : reconciler) (key : string) (w : World) :
  w_isLeader w = false ->
  Reconcile E ac key w = (Err (SkipKey key), w)
  /\ IsSkipKey (SkipKey key) = true
  /\ issued w (snd (Reconcile E ac key w)) = [].
Proof.
  intros Hl.
  assert (Hp : plan E ac key w = (Err (SkipKey key), [], None)).
  { unfold plan. cbv zeta. rewrite Hl. reflexivity. }
  rewrite Reconcile_plan, Hp. cbn [fst snd]. rewrite issued_commit, commit_nil.
  repeat split.
Qed.

Lemma Reconcile_not_leader_witness :
  w_isLeader followerWorld = false
  /\ Reconcile EnsureLabelSelectorExpressions_spec sampleReconciler "key" followerWorld
     = (Err (SkipKey "key"), followerWorld).
Proof.
  split; [reflexivity|].
  apply (Reconcile_not_leader EnsureLabelSelectorExpressions_spec sampleReconciler
           "key" followerWorld eq_refl).
Defined.

(** C9.  When the observed registration has an entry named like the
    registration itself whose client configuration has no service, no run of
    [Reconcile] sends an update: the store is as it was, and the run ends with
    an error value.  A leader's run that has read the CA bundle, the
    registration and the namespace returns the configuration error
    [MissingServiceReference] for that name, having issued these three reads
    and nothing else. *)
Theorem Reconcile_missing_service
    (E : option LabelSelector -> option LabelSelector -> option LabelSelector)
    (ac : reconciler) (key : string) (w : World)
    (c : MutatingWebhookConfiguration) (wh : MutatingWebhook) :
  store_get (nn_Name (ac_key ac)) (w_webhooks w) = Some c ->
  wh ∈ mwc_Webhooks c ->
  wh_Name wh = mwc_Name c ->
  cc_Service (wh_ClientConfig wh) = None ->
  count_events is_update (issued w (snd (Reconcile E ac key w))) = 0%nat
  /\ w_webhooks (snd (Reconcile E ac key w)) = w_webhooks w
  /\ (exists e, fst (Reconcile E ac key w) = Err e)
  /\ (forall s caCert ns,
        w_isLeader w = true ->
        w_secrets w !! ac_secretName ac = Some s ->
        secret_Data s !! CACert = Some caCert ->
        w_namespace w = Ok ns ->
        Reconcile E ac key w
        = (Err (MissingServiceReference (mwc_Name c)), after_reads ac w)).
Proof.
  intros Hget Hin Hname Hsvc.
  assert (Hd : forall caCert ns,
             desiredRegistration E ac caCert ns c
             = Err (MissingServiceReference (mwc_Name c))).
  { intros caCert ns. unfold desiredRegistration. cbv zeta.
    rewrite (reconcileEntries_missing_service E ac caCert _ _ wh); auto. }
  rewrite Reconcile_plan. cbn [fst snd]. rewrite issued_commit.
  unfold plan. cbv zeta. rewrite Hget.
  destruct (w_isLeader w) eqn:Hl; cbn [negb].
  2:{ split; [reflexivity|]. split; [reflexivity|]. split; [eauto|]. discriminate. }
  destruct (w_secrets w !! ac_secretName ac) as [s|] eqn:Hs.
  2:{ split; [reflexivity|]. split; [reflexivity|]. split; [eauto|]. discriminate. }
  destruct (secret_Data s !! CACert) as [caCert|] eqn:Hca.
  2:{ split; [reflexivity|]. split; [reflexivity|]. split; [eauto|].
      intros s' caCert' ns' _ [= <-] Hca'. congruence. }
  destruct (w_namespace w) as [ns|e] eqn:Hns.
  2:{ split; [reflexivity|]. split; [reflexivity|]. split; [eauto|]. discriminate. }
  rewrite Hd.
  split; [reflexivity|]. split; [reflexivity|]. split; [eauto|].
  intros s' caCert' ns' _ _ _ _. reflexivity.
Qed.

Lemma Reconcile_missing_service_witness :
  cc_Service (wh_ClientConfig (sampleWebhook None)) = None
  /\ Reconcile EnsureLabelSelectorExpressions_spec sampleReconciler "key" brokenWorld
     = (Err (MissingServiceReference "pod-affinity.webhook.dev"),
        after_reads sampleReconciler brokenWorld).
Proof.
  split; [reflexivity|].
  refine (proj2 (proj2 (proj2
            (Reconcile_missing_service EnsureLabelSelectorExpressions_spec
               sampleReconciler "key" brokenWorld (sampleRegistration None)
               (sampleWebhook None) eq_refl _ eq_refl eq_refl)))
            {| secret_Data := {[ CACert := Some [4; 5; 6] ]} |} (Some [4; 5; 6])
            {| ns_ObjectMeta :=
                 {| meta_Name := "tekton-pipelines"; meta_UID := "9d0e";
                    meta_Labels := None; meta_Annotations := None;
                    meta_OwnerReferences := [] |} |}
            eq_refl eq_refl eq_refl eq_refl).
  apply list_elem_of_here.
Defined.

(** The entries of the desired registration that carry the registration's
    name have the CA bundle, the callback path, the rule set and the
    re-invocation policy written by the loop. *)
Lemma reconcileEntries_targeted E ac caCert name whs whs' wh' :
  reconcileEntries E ac caCert name whs = Ok whs' ->
  wh' ∈ whs' -> wh_Name wh' = name ->
  cc_CABundle (wh_ClientConfig wh') = caCert
  /\ (exists service,
        cc_Service (wh_ClientConfig wh') = Some service
        /\ svc_Path service = Some (Path ac))
  /\ wh_Rules wh' = rules
  /\ wh_ReinvocationPolicy wh' = Some IfNeededReinvocationPolicy.
Proof.
  revert whs'. induction whs as [|wh whs IH]; intros whs'; simpl.
  - intros [= <-] Hin. inversion Hin.
  - destruct (reconcileEntry E ac caCert name wh) as [wh1|] eqn:H1; [|discriminate].
    destruct (reconcileEntries E ac caCert name whs) as [whs1|]; [|discriminate].
    intros [= <-] Hin Hname.
    apply elem_of_cons in Hin as [->|Hin]; [|apply (IH whs1 eq_refl Hin Hname)].
    revert H1. unfold reconcileEntry.
    destruct (bool_decide (wh_Name wh <> name)) eqn:Hn.
    + intros [= <-]. apply bool_decide_eq_true in Hn. contradiction.
    + destruct (cc_Service (wh_ClientConfig wh)) as [service|]; [|discriminate].
      intros [= <-]. cbn. eauto 10.
Qed.

(** Scenario A of section 8, for every world: when a leader's reads succeed,
    the observed registration differs from the desired one and the store takes
    updates, [Reconcile] returns nil and sends exactly one update, which carries
    the desired document; the store then holds it, and its entries named like
    the registration carry the CA bundle read from the secret. *)
Theorem Reconcile_replaces_stale
    (E : option LabelSelector -> option LabelSelector -> option LabelSelector)
    (ac : reconciler) (key : string) (w : World)
    (s : Secret) (caCert : option (list Z)) (c d : MutatingWebhookConfiguration) (ns : Namespace) :
  w_isLeader w = true ->
  w_secrets w !! ac_secretName ac = Some s ->
  secret_Data s !! CACert = Some caCert ->
  store_get (nn_Name (ac_key ac)) (w_webhooks w) = Some c ->
  w_namespace w = Ok ns ->
  desiredRegistration E ac caCert ns c = Ok d ->
  c <> d ->
  w_updateError w = None ->
  fst (Reconcile E ac key w) = Ok tt
  /\ List.filter is_update (issued w (snd (Reconcile E ac key w))) = [EvUpdate d true]
  /\ store_get (nn_Name (ac_key ac)) (w_webhooks (snd (Reconcile E ac key w))) = Some d
  /\ forall wh, wh ∈ mwc_Webhooks d -> wh_Name wh = mwc_Name c ->
                cc_CABundle (wh_ClientConfig wh) = caCert.
Proof.
  intros Hl Hs Hca Hget Hns Hd Hne Hu.
  assert (Hp : plan E ac key w
               = (Ok tt, [EvUpdate d true; EvGetNamespace;
                          EvGetWebhook (nn_Name (ac_key ac));
                          EvGetSecret (ac_secretName ac)], Some d)).
  { unfold plan. cbv zeta. rewrite Hl. cbn [negb].
    rewrite Hs, Hca, Hget, Hns, Hd, Hu, bool_decide_eq_false_2 by assumption.
    reflexivity. }
  rewrite Reconcile_plan, Hp. cbn [fst snd]. rewrite issued_commit.
  split; [reflexivity|]. split; [reflexivity|]. split.
  - cbn [commit w_webhooks]. apply (store_get_replace _ _ c d Hget).
    rewrite (desiredRegistration_name _ _ _ _ _ _ Hd).
    apply (store_get_name _ _ _ Hget).
  - intros wh Hin Hname. revert Hd. unfold desiredRegistration. cbv zeta.
    destruct (reconcileEntries E ac caCert _ _) as [whs|] eqn:Hw; [|discriminate].
    intros [= <-].
    apply (reconcileEntries_targeted _ _ _ _ _ _ wh Hw Hin). exact Hname.
Qed.

Lemma Reconcile_replaces_stale_witness :
  fst (Reconcile EnsureLabelSelectorExpressions_spec sampleReconciler "key" staleWorld)
  = Ok tt.
Proof.
  refine (proj1 (Reconcile_replaces_stale EnsureLabelSelectorExpressions_spec
                   sampleReconciler "key" staleWorld
                   {| secret_Data := {[ CACert := Some [4; 5; 6] ]} |} (Some [4; 5; 6])
                   (sampleRegistration (Some sampleService)) _
                   {| ns_ObjectMeta :=
                        {| meta_Name := "tekton-pipelines"; meta_UID := "9d0e";
                           meta_Labels := None; meta_Annotations := None;
                           meta_OwnerReferences := [] |} |}
                   eq_refl eq_refl eq_refl eq_refl eq_refl eq_refl _ eq_refl)).
  vm_compute. discriminate.
Defined.

(** Scenario A on the sample world: a stale CA bundle and a service target.
    The first run sends one update, which carries the new bundle, the callback
    path, the rule set, the exclusion selector and the re-invocation policy; the
    second run sends none. *)
Example Reconcile_stale_bundle :
  let E := EnsureLabelSelectorExpressions_spec in
  let first := Reconcile E sampleReconciler "key" staleWorld in
  let second := Reconcile E sampleReconciler "key" (snd first) in
  fst first = Ok tt
  /\ List.filter is_update (issued staleWorld (snd first))
     = [ EvUpdate
           {| mwc_ObjectMeta :=
                {| meta_Name := "pod-affinity.webhook.dev"; meta_UID := "2f1c";
                   meta_Labels := None; meta_Annotations := None;
                   meta_OwnerReferences :=
                     [ {| own_APIVersion := "v1"; own_Kind := "Namespace";
                          own_Name := "tekton-pipelines"; own_UID := "9d0e";
                          own_Controller := Some true;
                          own_BlockOwnerDeletion := Some true |} ] |};
              mwc_Webhooks :=
                [ {| wh_Name := "pod-affinity.webhook.dev";
                     wh_ClientConfig :=
                       {| cc_URL := None;
                          cc_Service :=
                            Some {| svc_Namespace := "tekton-pipelines";
                                    svc_Name := "pod-affinity-webhook";
                                    svc_Path := Some "/pod-affinity"%string;
                                    svc_Port := None |};
                          cc_CABundle := Some [4; 5; 6] |};
                     wh_Rules := rules;
                     wh_FailurePolicy := Some "Fail"%string;
                     wh_NamespaceSelector := Some excludeSelector;
                     wh_ObjectSelector := None;
                     wh_SideEffects := Some "None"%string;
                     wh_AdmissionReviewVersions := ["v1"%string];
                     wh_ReinvocationPolicy := Some IfNeededReinvocationPolicy |} ] |}
           true ]
  /\ fst second = Ok tt
  /\ List.filter is_update (issued (snd first) (snd second)) = [].
Proof. vm_compute. auto. Qed.

(** * Further properties of the code *)

(** ** Runs of [Reconcile] *)

Lemma plan_run E ac key w :
  Run E ac key w (fst (fst (plan E ac key w))) (snd (fst (plan E ac key w)))
    (snd (plan E ac key w)).
Proof.
  unfold plan. cbv zeta.
  destruct (w_isLeader w) eqn:Hl; cbn [negb]; [|apply RunSkip; assumption].
  destruct (w_secrets w !! ac_secretName ac) as [s|] eqn:Hs;
    [|apply RunNoSecret; assumption].
  destruct (secret_Data s !! CACert) as [caCert|] eqn:Hca;
    [|eapply RunNoKey; eassumption].
  destruct (store_get (nn_Name (ac_key ac)) (w_webhooks w)) as [c|] eqn:Hget;
    [|eapply RunNoWebhook; eassumption].
  destruct (w_namespace w) as [ns|e] eqn:Hns;
    [|eapply RunNoNamespace; eassumption].
  destruct (desiredRegistration E ac caCert ns c) as [d|e] eqn:Hd;
    [|eapply RunNoDesired; eassumption].
  destruct (bool_decide (c = d)) eqn:Hcd.
  - apply bool_decide_eq_true in Hcd. subst d. eapply RunValid; eassumption.
  - apply bool_decide_eq_false in Hcd.
    destruct (w_updateError w) as [msg|] eqn:Hu.
    + eapply RunRejected; eassumption.
    + eapply RunUpdated; eassumption.
Qed.

(** Every call of [Reconcile] is one of the runs. *)
Lemma Reconcile_runs E ac key w :
  exists r evs stored,
    Run E ac key w r evs stored
    /\ Reconcile E ac key w = (r, commit w evs stored).
Proof.
  exists (fst (fst (plan E ac key w))), (snd (fst (plan E ac key w))),
    (snd (plan E ac key w)).
  split; [apply plan_run | apply Reconcile_plan].
Qed.

Lemma store_replace_names d l :
  map mwc_Name (store_replace d l) = map mwc_Name l.
Proof.
  induction l as [|c l IH]; simpl; [reflexivity|].
  destruct (bool_decide (mwc_Name c = mwc_Name d)) eqn:Hc; simpl.
  - apply bool_decide_eq_true in Hc. rewrite Hc. reflexivity.
  - rewrite IH. reflexivity.
Qed.

Lemma store_get_replace_other name d l :
  name <> mwc_Name d -> store_get name (store_replace d l) = store_get name l.
Proof.
  intros Hne. induction l as [|c l IH]; simpl; [reflexivity|].
  destruct (bool_decide (mwc_Name c = mwc_Name d)) eqn:Hc; simpl.
  - apply bool_decide_eq_true in Hc.
    rewrite !bool_decide_eq_false_2 by congruence. reflexivity.
  - rewrite IH. reflexivity.
Qed.

Lemma Run_stored_name E ac key w r evs d :
  Run E ac key w r evs (Some d) -> mwc_Name d = nn_Name (ac_key ac).
Proof.
  inversion 1; subst.
  match goal with
  | Hd : desiredRegistration _ _ _ _ _ = Ok _, Hg : store_get _ _ = Some _ |- _ =>
      rewrite (desiredRegistration_name _ _ _ _ _ _ Hd); apply (store_get_name _ _ _ Hg)
  end.
Qed.

(** X3.  The key [Reconcile] is called with only names the skip signal: a
    leader's run returns the same value and leaves the same world whatever the
    key, and the world after a run never depends on it.  This is the comment
    of lines 85-86: it does not matter what is enqueued. *)
Theorem Reconcile_key_only_names_skip
    (E : option LabelSelector -> option LabelSelector -> option LabelSelector)
    (ac : reconciler) (key key' : string) (w : World) :
  snd (Reconcile E ac key w) = snd (Reconcile E ac key' w)
  /\ (w_isLeader w = true -> Reconcile E ac key w = Reconcile E ac key' w)
  /\ (w_isLeader w = false ->
      fst (Reconcile E ac key w) = Err (SkipKey key)
      /\ fst (Reconcile E ac key' w) = Err (SkipKey key')).
Proof.
  rewrite !Reconcile_plan. cbn [fst snd].
  destruct (w_isLeader w) eqn:Hl.
  - assert (Hp : plan E ac key w = plan E ac key' w).
    { unfold plan. cbv zeta. rewrite Hl. reflexivity. }
    rewrite Hp. split; [reflexivity|]. split; [reflexivity | discriminate].
  - assert (Hp : forall k, plan E ac k w = (Err (SkipKey k), [], None)).
    { intros k. unfold plan. cbv zeta. rewrite Hl. reflexivity. }
    rewrite !Hp. cbn [fst snd]. split; [reflexivity|]. split; [discriminate|].
    intros _. split; reflexivity.
Qed.

(** X4.  What [Reconcile] leaves alone.  A run changes neither the leadership,
    nor the secrets, nor what the cluster answers to the namespace read or to
    an update; the store keeps its registrations in number, order and name;
    every registration under another name than [ac.key.Name] is as it was; the
    log of issued calls only grows. *)
Theorem Reconcile_frame
    (E : option LabelSelector -> option LabelSelector -> option LabelSelector)
    (ac : reconciler) (key : string) (w : World) :
  let w' := snd (Reconcile E ac key w) in
  w_isLeader w' = w_isLeader w
  /\ w_secrets w' = w_secrets w
  /\ w_namespace w' = w_namespace w
  /\ w_updateError w' = w_updateError w
  /\ map mwc_Name (w_webhooks w') = map mwc_Name (w_webhooks w)
  /\ (forall name, name <> nn_Name (ac_key ac) ->
        store_get name (w_webhooks w') = store_get name (w_webhooks w))
  /\ w_events w' = issued w w' ++ w_events w.
Proof.
  destruct (Reconcile_runs E ac key w) as (r & evs & stored & Hrun & ->).
  cbn [snd]. rewrite issued_commit.
  split; [reflexivity|]. split; [reflexivity|]. split; [reflexivity|].
  split; [reflexivity|].
  destruct stored as [d|]; cbn [commit w_webhooks w_events].
  - split; [apply store_replace_names|]. split; [|reflexivity].
    intros name Hne. apply store_get_replace_other.
    rewrite (Run_stored_name _ _ _ _ _ _ _ Hrun). exact Hne.
  - split; [reflexivity|]. split; reflexivity.
Qed.

(** X5.  The calls of a run come in one order: the secret, the registration,
    the namespace, then the update.  A run issues some prefix of that sequence,
    so each call is made at most once and an update is never sent before the
    three reads. *)
Theorem Reconcile_call_order
    (E : option LabelSelector -> option LabelSelector -> option LabelSelector)
    (ac : reconciler) (key : string) (w : World) :
  exists d accepted,
    rev (issued w (snd (Reconcile E ac key w)))
    `prefix_of` [ EvGetSecret (ac_secretName ac); EvGetWebhook (nn_Name (ac_key ac));
                  EvGetNamespace; EvUpdate d accepted ].
Proof.
  destruct (Reconcile_runs E ac key w) as (r & evs & stored & Hrun & ->).
  cbn [snd]. rewrite issued_commit.
  pose (d0 := {| mwc_ObjectMeta := zeroObjectMeta; mwc_Webhooks := [] |}).
  destruct Hrun; cbn [rev app];
    first [ exists d, true; reflexivity
          | exists d, false; reflexivity
          | exists d0, true; eexists; reflexivity ].
Qed.

(** X6.  An update is sent only on a real difference, and it carries the
    desired document: whenever a run issues [Update], the leader has read the
    CA bundle, the observed registration and the namespace, the document sent
    is the desired registration computed from them, it differs from the
    observed one, and the store takes it exactly when it raises no error. *)
Theorem Reconcile_update_is_desired
    (E : option LabelSelector -> option LabelSelector -> option LabelSelector)
    (ac : reconciler) (key : string) (w : World)
    (d : MutatingWebhookConfiguration) (accepted : bool) :
  EvUpdate d accepted ∈ issued w (snd (Reconcile E ac key w)) ->
  exists s caCert c ns,
    w_isLeader w = true
    /\ w_secrets w !! ac_secretName ac = Some s
    /\ secret_Data s !! CACert = Some caCert
    /\ store_get (nn_Name (ac_key ac)) (w_webhooks w) = Some c
    /\ w_namespace w = Ok ns
    /\ desiredRegistration E ac caCert ns c = Ok d
    /\ c <> d
    /\ (accepted = true <-> w_updateError w = None).
Proof.
  destruct (Reconcile_runs E ac key w) as (r & evs & stored & Hrun & ->).
  cbn [snd]. rewrite issued_commit. intros Hin.
  destruct Hrun;
    repeat (apply elem_of_cons in Hin as [Hin|Hin]; [try discriminate|]);
    try (inversion Hin; fail).
  - injection Hin as -> ->. exists s, caCert, c, ns.
    repeat (split; [assumption|]). split; [discriminate | congruence].
  - injection Hin as -> ->. exists s, caCert, c, ns.
    repeat (split; [assumption|]). split; [intros _; assumption | reflexivity].
Qed.

Lemma Reconcile_update_is_desired_witness :
  exists d,
    EvUpdate d true
      ∈ issued staleWorld
          (snd (Reconcile EnsureLabelSelectorExpressions_spec sampleReconciler "key"
                  staleWorld))
    /\ w_updateError staleWorld = None.
Proof.
  assert (Hin : exists d,
             EvUpdate d true
               ∈ issued staleWorld
                   (snd (Reconcile EnsureLabelSelectorExpressions_spec sampleReconciler
                           "key" staleWorld)))
    by (eexists; vm_compute; apply list_elem_of_here).
  destruct Hin as [d Hin]. exists d. split; [exact Hin|].
  destruct (Reconcile_update_is_desired EnsureLabelSelectorExpressions_spec
              sampleReconciler "key" staleWorld d true Hin)
    as (s & caCert & c & ns & _ & _ & _ & _ & _ & _ & _ & Hacc).
  apply Hacc. reflexivity.
Defined.

(** X7.  Failed reads of a leader's run.  A missing secret is returned as the
    lister gave it, not wrapped; a secret without the CA key gives
    [MissingKey]; in both cases only the secret was read.  A missing
    registration is wrapped as [RetrievingWebhook] and the namespace is not
    read; a failed namespace read is wrapped as [FetchNamespace].  None of these
    runs touches the store. *)
Theorem Reconcile_read_failures
    (E : option LabelSelector -> option LabelSelector -> option LabelSelector)
    (ac : reconciler) (key : string) (w : World) :
  w_isLeader w = true ->
  (w_secrets w !! ac_secretName ac = None ->
   Reconcile E ac key w
   = (Err (External "secret not found"), record_event (EvGetSecret (ac_secretName ac)) w))
  /\ (forall s,
        w_secrets w !! ac_secretName ac = Some s ->
        secret_Data s !! CACert = None ->
        Reconcile E ac key w
        = (Err (MissingKey (ac_secretName ac) CACert),
           record_event (EvGetSecret (ac_secretName ac)) w))
  /\ (forall s caCert,
        w_secrets w !! ac_secretName ac = Some s ->
        secret_Data s !! CACert = Some caCert ->
        store_get (nn_Name (ac_key ac)) (w_webhooks w) = None ->
        Reconcile E ac key w
        = (Err (RetrievingWebhook (External "mutatingwebhookconfiguration not found")),
           record_event (EvGetWebhook (nn_Name (ac_key ac)))
             (record_event (EvGetSecret (ac_secretName ac)) w)))
  /\ (forall s caCert c e,
        w_secrets w !! ac_secretName ac = Some s ->
        secret_Data s !! CACert = Some caCert ->
        store_get (nn_Name (ac_key ac)) (w_webhooks w) = Some c ->
        w_namespace w = Err e ->
        Reconcile E ac key w = (Err (FetchNamespace e), after_reads ac w)).
Proof.
  intros Hl. rewrite Reconcile_plan. unfold plan. cbv zeta. rewrite Hl. cbn [negb].
  split; [|split; [|split]].
  - intros Hs. rewrite Hs. reflexivity.
  - intros s Hs Hca. rewrite Hs, Hca. reflexivity.
  - intros s caCert Hs Hca Hget. rewrite Hs, Hca, Hget. reflexivity.
  - intros s caCert c e Hs Hca Hget Hns. rewrite Hs, Hca, Hget, Hns. reflexivity.
Qed.

Lemma Reconcile_read_failures_witness :
  Reconcile EnsureLabelSelectorExpressions_spec sampleReconciler "key"
    {| w_isLeader := true; w_secrets := ∅; w_webhooks := []; w_namespace := Ok sampleNamespace;
       w_updateError := None; w_events := [] |}
  = (Err (External "secret not found"),
     {| w_isLeader := true; w_secrets := ∅; w_webhooks := []; w_namespace := Ok sampleNamespace;
        w_updateError := None; w_events := [EvGetSecret "webhook-certs"] |}).
Proof.
  apply (Reconcile_read_failures EnsureLabelSelectorExpressions_spec sampleReconciler "key"
           {| w_isLeader := true; w_secrets := ∅; w_webhooks := [];
              w_namespace := Ok sampleNamespace; w_updateError := None; w_events := [] |}
           eq_refl).
  reflexivity.
Defined.

(** X8.  A refused update.  When the observed registration differs from the
    desired one and the store answers the update with an error, [Reconcile]
    returns that error wrapped as [UpdatingWebhook]; it has sent the desired
    document once, and the store holds what it held. *)
Theorem Reconcile_update_rejected
    (E : option LabelSelector -> option LabelSelector -> option LabelSelector)
    (ac : reconciler) (key : string) (w : World)
    (s : Secret) (caCert : option (list Z)) (c d : MutatingWebhookConfiguration) (ns : Namespace)
    (msg : string) :
  w_isLeader w = true ->
  w_secrets w !! ac_secretName ac = Some s ->
  secret_Data s !! CACert = Some caCert ->
  store_get (nn_Name (ac_key ac)) (w_webhooks w) = Some c ->
  w_namespace w = Ok ns ->
  desiredRegistration E ac caCert ns c = Ok d ->
  c <> d ->
  w_updateError w = Some msg ->
  Reconcile E ac key w
  = (Err (UpdatingWebhook (External msg)),
     record_event (EvUpdate d false) (after_reads ac w))
  /\ w_webhooks (snd (Reconcile E ac key w)) = w_webhooks w.
Proof.
  intros Hl Hs Hca Hget Hns Hd Hne Hu.
  assert (Hp : plan E ac key w
               = (Err (UpdatingWebhook (External msg)),
                  [EvUpdate d false; EvGetNamespace;
                   EvGetWebhook (nn_Name (ac_key ac));
                   EvGetSecret (ac_secretName ac)], None)).
  { unfold plan. cbv zeta. rewrite Hl. cbn [negb].
    rewrite Hs, Hca, Hget, Hns, Hd, Hu, bool_decide_eq_false_2 by assumption.
    reflexivity. }
  rewrite Reconcile_plan, Hp. split; reflexivity.
Qed.

Lemma Reconcile_update_rejected_witness :
  fst (Reconcile EnsureLabelSelectorExpressions_spec sampleReconciler "key" forbiddenWorld)
  = Err (UpdatingWebhook (External "forbidden"))
  /\ w_webhooks
       (snd (Reconcile EnsureLabelSelectorExpressions_spec sampleReconciler "key"
               forbiddenWorld))
     = w_webhooks forbiddenWorld.
Proof.
  assert (Hne : sampleRegistration (Some sampleService)
                <> set_Webhooks
                     [ {| wh_Name := "pod-affinity.webhook.dev";
                          wh_ClientConfig :=
                            {| cc_URL := None;
                               cc_Service :=
                                 Some {| svc_Namespace := "tekton-pipelines";
                                         svc_Name := "pod-affinity-webhook";
                                         svc_Path := Some "/pod-affinity"%string;
                                         svc_Port := None |};
                               cc_CABundle := Some [4; 5; 6] |};
                          wh_Rules := rules;
                          wh_FailurePolicy := Some "Fail"%string;
                          wh_NamespaceSelector := Some excludeSelector;
                          wh_ObjectSelector := None;
                          wh_SideEffects := Some "None"%string;
                          wh_AdmissionReviewVersions := ["v1"%string];
                          wh_ReinvocationPolicy := Some IfNeededReinvocationPolicy |} ]
                     (set_OwnerReferences
                        [NewControllerRef (ns_ObjectMeta sampleNamespace)
                           {| gvk_Group := ""; gvk_Version := "v1"; gvk_Kind := "Namespace" |}]
                        (sampleRegistration (Some sampleService))))
    by (vm_compute; discriminate).
  pose proof (Reconcile_update_rejected EnsureLabelSelectorExpressions_spec
                sampleReconciler "key" forbiddenWorld sampleSecret (Some [4; 5; 6])
                (sampleRegistration (Some sampleService)) _ sampleNamespace "forbidden"
                eq_refl eq_refl eq_refl eq_refl eq_refl eq_refl Hne eq_refl) as [H1 H2].
  split; [rewrite H1; reflexivity | exact H2].
Defined.

(** X9.  A nil return means the store has converged.  For any merge of
    selectors that changes nothing when applied again: when [Reconcile] returns
    nil, the leader has read the CA bundle and the namespace, and the
    registration the store holds afterwards under [ac.key.Name] is its own
    desired form. *)
Theorem Reconcile_nil_means_converged
    (E : option LabelSelector -> option LabelSelector -> option LabelSelector)
    (ac : reconciler) (key : string) (w : World) :
  reapplies_cleanly E ->
  fst (Reconcile E ac key w) = Ok tt ->
  exists s caCert ns d,
    w_isLeader w = true
    /\ w_secrets w !! ac_secretName ac = Some s
    /\ secret_Data s !! CACert = Some caCert
    /\ w_namespace w = Ok ns
    /\ store_get (nn_Name (ac_key ac)) (w_webhooks (snd (Reconcile E ac key w))) = Some d
    /\ desiredRegistration E ac caCert ns d = Ok d.
Proof.
  intros HE.
  destruct (Reconcile_runs E ac key w) as (r & evs & stored & Hrun & ->).
  cbn [fst snd]. intros ->.
  inversion Hrun; subst; exists s, caCert, ns.
  - exists c. cbn [commit w_webhooks]. auto 10.
  - exists d. cbn [commit w_webhooks].
    repeat (split; [assumption|]).
    match goal with
    | Hd : desiredRegistration _ _ _ _ _ = Ok _, Hg : store_get _ _ = Some _ |- _ =>
        split;
        [ apply (store_get_replace _ _ c d Hg);
          rewrite (desiredRegistration_name _ _ _ _ _ _ Hd);
          apply (store_get_name _ _ _ Hg)
        | apply (desiredRegistration_again _ _ _ _ _ _ HE Hd) ]
    end.
Qed.

Lemma Reconcile_nil_means_converged_witness :
  exists d,
    store_get "pod-affinity.webhook.dev"
      (w_webhooks (snd (Reconcile EnsureLabelSelectorExpressions_spec sampleReconciler
                          "key" staleWorld))) = Some d
    /\ desiredRegistration EnsureLabelSelectorExpressions_spec sampleReconciler (Some [4; 5; 6])
         sampleNamespace d = Ok d.
Proof.
  destruct (Reconcile_nil_means_converged EnsureLabelSelectorExpressions_spec
              sampleReconciler "key" staleWorld
              EnsureLabelSelectorExpressions_spec_reapplies eq_refl)
    as (s & caCert & ns & d & _ & Hs & Hca & Hns & Hget & Hd).
  exists d. split; [exact Hget|].
  injection Hns as <-. injection Hs as <-. injection Hca as <-. exact Hd.
Defined.

(** ** The desired registration *)

Lemma reconcileEntries_err_inv E ac caCert name whs e :
  reconcileEntries E ac caCert name whs = Err e ->
  e = MissingServiceReference name
  /\ exists wh, wh ∈ whs /\ wh_Name wh = name /\ cc_Service (wh_ClientConfig wh) = None.
Proof.
  induction whs as [|wh whs IH]; simpl; [discriminate|].
  destruct (reconcileEntry E ac caCert name wh) as [wh1|e1] eqn:H1.
  - destruct (reconcileEntries E ac caCert name whs) as [whs1|e2]; [discriminate|].
    intros [= <-]. destruct (IH eq_refl) as (-> & wh' & Hin & Hn & Hs).
    split; [reflexivity|]. exists wh'. split; [apply list_elem_of_further, Hin | auto].
  - intros [= <-]. revert H1. unfold reconcileEntry.
    destruct (bool_decide (wh_Name wh <> name)) eqn:Hn; [discriminate|].
    destruct (cc_Service (wh_ClientConfig wh)) eqn:Hs; [discriminate|].
    intros [= <-]. apply bool_decide_eq_false in Hn.
    assert (Hname : wh_Name wh = name)
      by (destruct (decide (wh_Name wh = name)); [assumption | contradiction]).
    rewrite Hname. split; [reflexivity|].
    exists wh. split; [apply list_elem_of_here | auto].
Qed.

Lemma desiredRegistration_err_kind E ac caCert ns c e :
  desiredRegistration E ac caCert ns c = Err e ->
  e = MissingServiceReference (mwc_Name c).
Proof.
  unfold desiredRegistration. cbv zeta.
  destruct (reconcileEntries E ac caCert _ _) as [whs|e'] eqn:Hw; [discriminate|].
  intros [= <-]. apply (reconcileEntries_err_inv _ _ _ _ _ _ Hw).
Qed.

(** X10.  When the desired registration cannot be built.  Building it fails
    exactly when some entry of the observed registration is named like the
    registration and has no service, and the error is then
    [MissingServiceReference] for that name; the CA bundle and the namespace
    play no part in it. *)
Theorem desiredRegistration_fails_iff
    (E : option LabelSelector -> option LabelSelector -> option LabelSelector)
    (ac : reconciler) (caCert : option (list Z)) (ns : Namespace)
    (c : MutatingWebhookConfiguration) (e : error) :
  desiredRegistration E ac caCert ns c = Err e
  <-> e = MissingServiceReference (mwc_Name c)
      /\ exists wh, wh ∈ mwc_Webhooks c
                    /\ wh_Name wh = mwc_Name c
                    /\ cc_Service (wh_ClientConfig wh) = None.
Proof.
  unfold desiredRegistration. cbv zeta. split.
  - destruct (reconcileEntries E ac caCert _ _) as [whs|e'] eqn:Hw; [discriminate|].
    intros [= <-]. apply (reconcileEntries_err_inv _ _ _ _ _ _ Hw).
  - intros (-> & wh & Hin & Hn & Hs).
    rewrite (reconcileEntries_missing_service E ac caCert _ _ wh); auto.
Qed.

Lemma reconcileEntries_frame E ac caCert name whs whs' :
  reconcileEntries E ac caCert name whs = Ok whs' ->
  Forall2 (fun wh wh' => same_untouched wh wh' /\ (wh_Name wh <> name -> wh' = wh))
    whs whs'.
Proof.
  revert whs'. induction whs as [|wh whs IH]; intros whs'; simpl.
  - intros [= <-]. constructor.
  - destruct (reconcileEntry E ac caCert name wh) as [wh1|] eqn:H1; [|discriminate].
    destruct (reconcileEntries E ac caCert name whs) as [whs1|]; [|discriminate].
    intros [= <-]. constructor; [|apply IH; reflexivity].
    revert H1. unfold reconcileEntry.
    destruct (bool_decide (wh_Name wh <> name)) eqn:Hn.
    + intros [= <-]. split; [|reflexivity].
      unfold same_untouched. repeat (split; [reflexivity|]). eauto 10.
    + destruct (cc_Service (wh_ClientConfig wh)) as [service|] eqn:Hs; [|discriminate].
      intros [= <-]. apply bool_decide_eq_false in Hn. split; [|contradiction].
      unfold same_untouched. cbn. repeat (split; [reflexivity|]).
      intros service'. rewrite Hs. intros [= <-]. eauto 10.
Qed.

(** X11.  What the desired registration keeps of the observed one.  It has the
    same name, UID, labels and annotations; its owner references are replaced
    by the single controller reference to the system namespace, whatever owners
    it had; it has the same entries in the same order, an entry under another
    name is unchanged, and a targeted entry keeps its name, URL, failure
    policy, object selector, side effects, review versions and the namespace,
    name and port of its service. *)
Theorem desiredRegistration_frame
    (E : option LabelSelector -> option LabelSelector -> option LabelSelector)
    (ac : reconciler) (caCert : option (list Z)) (ns : Namespace)
    (c d : MutatingWebhookConfiguration) :
  desiredRegistration E ac caCert ns c = Ok d ->
  mwc_Name d = mwc_Name c
  /\ meta_UID (mwc_ObjectMeta d) = meta_UID (mwc_ObjectMeta c)
  /\ meta_Labels (mwc_ObjectMeta d) = meta_Labels (mwc_ObjectMeta c)
  /\ meta_Annotations (mwc_ObjectMeta d) = meta_Annotations (mwc_ObjectMeta c)
  /\ meta_OwnerReferences (mwc_ObjectMeta d)
     = [ {| own_APIVersion := "v1"; own_Kind := "Namespace";
            own_Name := meta_Name (ns_ObjectMeta ns);
            own_UID := meta_UID (ns_ObjectMeta ns);
            own_Controller := Some true;
            own_BlockOwnerDeletion := Some true |} ]
  /\ Forall2 (fun wh wh' =>
                same_untouched wh wh' /\ (wh_Name wh <> mwc_Name c -> wh' = wh))
       (mwc_Webhooks c) (mwc_Webhooks d).
Proof.
  unfold desiredRegistration. cbv zeta.
  destruct (reconcileEntries E ac caCert _ _) as [whs|] eqn:Hw; [|discriminate].
  intros [= <-]. repeat (split; [reflexivity|]).
  apply (reconcileEntries_frame _ _ _ _ _ _ Hw).
Qed.

Lemma desiredRegistration_frame_witness :
  exists d,
    desiredRegistration EnsureLabelSelectorExpressions_spec sampleReconciler (Some [4; 5; 6])
      sampleNamespace (sampleRegistration (Some sampleService)) = Ok d
    /\ mwc_Name d = "pod-affinity.webhook.dev"%string
    /\ length (mwc_Webhooks d) = 1%nat.
Proof.
  eexists. split; [vm_compute; reflexivity|].
  match goal with
  | |- mwc_Name ?d = _ /\ _ =>
      pose proof (desiredRegistration_frame EnsureLabelSelectorExpressions_spec
                    sampleReconciler (Some [4; 5; 6]) sampleNamespace
                    (sampleRegistration (Some sampleService)) d eq_refl)
        as (Hn & _ & _ & _ & _ & Hf)
  end.
  split; [exact Hn|]. apply Forall2_length in Hf. symmetry. exact Hf.
Defined.

(** X12.  The skip signal means "not the leader" and nothing else:
    [Reconcile] returns [SkipKey k] exactly when leadership is not held and [k]
    is the key it was called with. *)
Theorem Reconcile_skip_iff_not_leader
    (E : option LabelSelector -> option LabelSelector -> option LabelSelector)
    (ac : reconciler) (key k : string) (w : World) :
  fst (Reconcile E ac key w) = Err (SkipKey k) <-> w_isLeader w = false /\ k = key.
Proof.
  destruct (Reconcile_runs E ac key w) as (r & evs & stored & Hrun & ->).
  cbn [fst]. split.
  - intros ->. inversion Hrun; subst; try (split; [assumption | reflexivity]).
    match goal with
    | Hd : desiredRegistration _ _ _ _ _ = Err _ |- _ =>
        apply desiredRegistration_err_kind in Hd; discriminate
    end.
  - intros [Hl ->]. inversion Hrun; subst; congruence.
Qed.

(** ** What admission leaves alone *)

Lemma mutatePod_meta (p : Pod) :
  meta_Name (pod_ObjectMeta (mutatePod p)) = meta_Name (pod_ObjectMeta p)
  /\ meta_UID (pod_ObjectMeta (mutatePod p)) = meta_UID (pod_ObjectMeta p)
  /\ meta_OwnerReferences (pod_ObjectMeta (mutatePod p))
     = meta_OwnerReferences (pod_ObjectMeta p).
Proof.
  unfold mutatePod.
  destruct (map_get (pod_Labels p) "tekton.dev/pipelineRun") as [w|]; cbn;
    rewrite ?mutatePodAffinity_meta; auto.
Qed.

Lemma mutatePod_spec_cases (p : Pod) :
  pod_Spec (mutatePod p) = pod_Spec p
  \/ exists w,
       map_get (pod_Labels p) "tekton.dev/pipelineRun" = Some w
       /\ map_get (pod_Annotations p) AnnotationAffinityAssistantName = None.
Proof.
  destruct (map_get (pod_Labels p) "tekton.dev/pipelineRun") as [w|] eqn:Hl.
  - destruct (map_get (pod_Annotations p) AnnotationAffinityAssistantName)
      as [v|] eqn:Hm.
    + left. rewrite (mutatePod_marked _ _ Hm). reflexivity.
    + right. exists w. auto.
  - left. unfold mutatePod. rewrite Hl. reflexivity.
Qed.

Lemma mutatePod_other_rules (p : Pod) :
  preferredRules (mutatePod p) = preferredRules p
  /\ antiAffinity (mutatePod p) = antiAffinity p
  /\ spec_NodeName (pod_Spec (mutatePod p)) = spec_NodeName (pod_Spec p).
Proof.
  destruct (mutatePod_spec_cases p) as [Hs | (w & Hl & Hm)].
  - unfold preferredRules, antiAffinity. rewrite Hs. auto.
  - unfold preferredRules, antiAffinity. rewrite (mutatePod_workflow _ _ Hl Hm).
    destruct (spec_Affinity (pod_Spec p)) as [a|]; cbn; [|auto].
    destruct (aff_PodAffinity a); auto.
Qed.

Lemma mutatePod_grows (p : Pod) :
  pod_Spec (mutatePod p) = pod_Spec p
  <-> map_get (pod_Labels p) "tekton.dev/pipelineRun" = None
      \/ is_Some (map_get (pod_Annotations p) AnnotationAffinityAssistantName).
Proof.
  split.
  - intros Hs.
    destruct (map_get (pod_Labels p) "tekton.dev/pipelineRun") as [w|] eqn:Hl;
      [|left; reflexivity].
    destruct (map_get (pod_Annotations p) AnnotationAffinityAssistantName)
      as [v|] eqn:Hm; [right; eauto|].
    exfalso. pose proof (mutatePod_required _ _ Hl Hm) as Hr.
    unfold requiredRules at 1 in Hr. rewrite Hs in Hr. fold (requiredRules p) in Hr.
    apply (f_equal (@length _)) in Hr. rewrite length_app in Hr. simpl in Hr. lia.
  - intros [Hl | [v Hm]].
    + unfold mutatePod. rewrite Hl. reflexivity.
    + rewrite (mutatePod_marked _ _ Hm). reflexivity.
Qed.

Lemma withTestLabel_again (p : Pod) : withTestLabel (withTestLabel p) = withTestLabel p.
Proof.
  unfold withTestLabel at 1. rewrite withTestLabel_labels.
  unfold withTestLabel, set_Labels. cbn. rewrite insert_insert_eq.
  destruct (pod_Labels p); reflexivity.
Qed.

(** X13.  What admission leaves alone.  The target of the diff [Admit] answers
    with has the name, UID, owner references, annotations and node name of the
    decoded pod; every label but [QuanTest] is as it was; the required rules
    are kept in place and in order with at most one rule after them; the
    preferred rules and the anti-affinity are untouched. *)
Theorem Admit_frame (codecs : Decoder) (request : AdmissionRequest) :
  let pod := fst (Decode codecs (areq_Object_Raw request) gvkPod zeroPod) in
  let target := mutatePod pod in
  aresp_Patch (Admit codecs request) = generateJsonPatch pod target
  /\ meta_Name (pod_ObjectMeta target) = meta_Name (pod_ObjectMeta pod)
  /\ meta_UID (pod_ObjectMeta target) = meta_UID (pod_ObjectMeta pod)
  /\ meta_OwnerReferences (pod_ObjectMeta target)
     = meta_OwnerReferences (pod_ObjectMeta pod)
  /\ pod_Annotations target = pod_Annotations pod
  /\ spec_NodeName (pod_Spec target) = spec_NodeName (pod_Spec pod)
  /\ (forall k, k <> "QuanTest"%string ->
        map_get (pod_Labels target) k = map_get (pod_Labels pod) k)
  /\ (exists more, requiredRules target = requiredRules pod ++ more
                   /\ (length more <= 1)%nat)
  /\ preferredRules target = preferredRules pod
  /\ antiAffinity target = antiAffinity pod.
Proof.
  intros pod target. subst target.
  destruct (mutatePod_meta pod) as (Hn & Hu & Ho).
  destruct (mutatePod_other_rules pod) as (Hp & Ha & Hnode).
  split; [reflexivity|]. split; [exact Hn|]. split; [exact Hu|].
  split; [exact Ho|]. split; [apply mutatePod_annotations|].
  split; [exact Hnode|]. split; [|split; [|split; [exact Hp | exact Ha]]].
  - intros k Hk. rewrite mutatePod_labels. simpl.
    rewrite lookup_insert_ne by congruence.
    destruct (pod_Labels pod); [reflexivity | apply lookup_empty].
  - destruct (mutatePod_spec_cases pod) as [Hs | (w & Hl & Hm)].
    + exists []. unfold requiredRules. rewrite Hs, app_nil_r. split; [reflexivity | simpl; lia].
    + eexists. split; [apply (mutatePod_required _ _ Hl Hm) | simpl; lia].
Qed.

(** X14.  When admission touches the pod spec.  The spec of the target equals
    the spec of the decoded pod exactly when the pod has no owning-workflow
    label or carries the marker annotation; and exactly then admitting the
    target once more gives the same target.  In the other case every further
    admission changes the pod again. *)
Theorem Admit_spec_unchanged_iff (codecs : Decoder) (request : AdmissionRequest) :
  let pod := fst (Decode codecs (areq_Object_Raw request) gvkPod zeroPod) in
  let quiet :=
    map_get (pod_Labels pod) "tekton.dev/pipelineRun" = None
    \/ is_Some (map_get (pod_Annotations pod) AnnotationAffinityAssistantName) in
  (pod_Spec (mutatePod pod) = pod_Spec pod <-> quiet)
  /\ (mutatePod (mutatePod pod) = mutatePod pod <-> quiet).
Proof.
  intros pod quiet. subst quiet. split; [apply mutatePod_grows|]. split.
  - intros Hagain. apply mutatePod_grows.
    destruct (mutatePod_spec_cases pod) as [Hs | (w & Hl & Hm)]; [exact Hs|].
    exfalso.
    assert (Hl' := mutatePod_keeps_workflow _ _ Hl).
    assert (Hm' : map_get (pod_Annotations (mutatePod pod))
                    AnnotationAffinityAssistantName = None)
      by (rewrite mutatePod_annotations; exact Hm).
    pose proof (mutatePod_required _ _ Hl' Hm') as Hr. rewrite Hagain in Hr.
    apply (f_equal (@length _)) in Hr. rewrite length_app in Hr. simpl in Hr. lia.
  - intros [Hl | [v Hm]].
    + assert (H1 : mutatePod pod = withTestLabel pod)
        by (unfold mutatePod; rewrite Hl; reflexivity).
      rewrite H1. unfold mutatePod at 1. rewrite withTestLabel_labels. simpl.
      rewrite lookup_insert_ne by discriminate.
      assert (H2 : default ∅ (pod_Labels pod) !! "tekton.dev/pipelineRun"%string = None)
        by (destruct (pod_Labels pod); [exact Hl | apply lookup_empty]).
      rewrite H2. apply withTestLabel_again.
    + rewrite (mutatePod_marked _ _ Hm).
      rewrite (mutatePod_marked (withTestLabel pod) v) by exact Hm.
      apply withTestLabel_again.
Qed.

(** ** How much of the hash the token keeps *)

Lemma string_app_inj_l (p s t : string) : p +:+ s = p +:+ t -> s = t.
Proof. induction p as [|c p IH]; simpl; [auto | intros [= H]; auto]. Qed.

Lemma hex_digit_code (n : Z) :
  0 <= n < 16 ->
  Z.of_N (N_of_ascii (hex_digit n)) = if n <? 10 then 48 + n else 87 + n.
Proof.
  intros Hn. unfold hex_digit.
  destruct (n <? 10); rewrite N_ascii_embedding by lia; lia.
Qed.

Lemma hex_digit_inj (a b : Z) :
  0 <= a < 16 -> 0 <= b < 16 -> hex_digit a = hex_digit b -> a = b.
Proof.
  intros Ha Hb H.
  pose proof (hex_digit_code a Ha) as Ca. pose proof (hex_digit_code b Hb) as Cb.
  rewrite H in Ca. rewrite Ca in Cb.
  destruct (a <? 10) eqn:Ea, (b <? 10) eqn:Eb; lia.
Qed.

Lemma nibbles_range (x : Z) :
  0 <= x < 256 -> 0 <= Z.shiftr x 4 < 16 /\ 0 <= Z.land x 15 < 16.
Proof.
  intros Hx. rewrite Z.shiftr_div_pow2 by lia. change (2 ^ 4) with 16.
  change 15 with (Z.ones 4). rewrite Z.land_ones by lia. change (2 ^ 4) with 16.
  split; [split; [apply Z.div_pos; lia | apply Z.div_lt_upper_bound; lia]
         | apply Z.mod_pos_bound; lia].
Qed.

Lemma nibbles_inj (x y : Z) :
  Z.shiftr x 4 = Z.shiftr y 4 -> Z.land x 15 = Z.land y 15 -> x = y.
Proof.
  rewrite !Z.shiftr_div_pow2 by lia. change 15 with (Z.ones 4).
  rewrite !Z.land_ones by lia. change (2 ^ 4) with 16. intros Hq Hr.
  rewrite (Z.div_mod x 16), (Z.div_mod y 16) by lia. congruence.
Qed.

Lemma hex_encode_inj (b1 b2 : list Z) :
  Forall (fun x => 0 <= x < 256) b1 ->
  Forall (fun x => 0 <= x < 256) b2 ->
  hex_encode b1 = hex_encode b2 -> b1 = b2.
Proof.
  intros H1. revert b2.
  induction H1 as [|x b1 Hx _ IH]; intros b2 H2; destruct H2 as [|y b2 Hy H2];
    simpl; try discriminate; [reflexivity|].
  intros [= Hhi Hlo Hrest].
  destruct (nibbles_range x Hx) as [Hxh Hxl].
  destruct (nibbles_range y Hy) as [Hyh Hyl].
  apply hex_digit_inj in Hhi; [|assumption..].
  apply hex_digit_inj in Hlo; [|assumption..].
  f_equal; [apply nibbles_inj; assumption | apply IH; assumption].
Qed.

Lemma substring_hex_encode (n : nat) (b : list Z) :
  substring 0 (n + n) (hex_encode b) = hex_encode (firstn n b).
Proof.
  revert b. induction n as [|n IH]; intros [|x b]; try reflexivity.
  replace (S n + S n)%nat with (S (S (n + n))) by lia.
  simpl. rewrite IH. reflexivity.
Qed.

(** X15.  How much of the hash the token keeps.  Two workflow names get the
    same token exactly when the first five bytes of their SHA-256 hashes
    agree: the ten hex characters lose nothing of those forty bits and carry
    nothing of the other 216. *)
Theorem getPodAffinityValue_eq_iff (w1 w2 : string) :
  getPodAffinityValue w1 = getPodAffinityValue w2
  <-> firstn 5 (SHA256.Sum256 (bytes_of_string w1))
      = firstn 5 (SHA256.Sum256 (bytes_of_string w2)).
Proof.
  unfold getPodAffinityValue. cbv zeta.
  change 10%nat with (5 + 5)%nat. rewrite !substring_hex_encode. split.
  - intros H. apply string_app_inj_l in H. apply string_app_inj_l in H.
    apply hex_encode_inj in H; [exact H | |]; apply Forall_take, Sum256_range.
  - intros ->. reflexivity.
Qed.

(** ** What the loop writes on a targeted entry *)

Lemma reconcileEntries_written E ac caCert name whs whs' :
  reconcileEntries E ac caCert name whs = Ok whs' ->
  Forall2 (fun wh wh' =>
             wh_Name wh = name ->
             cc_CABundle (wh_ClientConfig wh') = caCert
             /\ (exists service, cc_Service (wh_ClientConfig wh') = Some service
                                 /\ svc_Path service = Some (Path ac))
             /\ wh_Rules wh' = rules
             /\ wh_NamespaceSelector wh'
                = E (wh_NamespaceSelector wh) (Some excludeSelector)
             /\ wh_ReinvocationPolicy wh' = Some IfNeededReinvocationPolicy)
    whs whs'.
Proof.
  revert whs'. induction whs as [|wh whs IH]; intros whs'; simpl.
  - intros [= <-]. constructor.
  - destruct (reconcileEntry E ac caCert name wh) as [wh1|] eqn:H1; [|discriminate].
    destruct (reconcileEntries E ac caCert name whs) as [whs1|]; [|discriminate].
    intros [= <-]. constructor; [|apply IH; reflexivity].
    intros Hname. revert H1. unfold reconcileEntry.
    destruct (bool_decide (wh_Name wh <> name)) eqn:Hn.
    + apply bool_decide_eq_true in Hn. contradiction.
    + destruct (cc_Service (wh_ClientConfig wh)) as [service|]; [|discriminate].
      intros [= <-]. cbn. eauto 10.
Qed.

(** X16.  What the loop writes.  In the desired registration every entry named
    like the registration, not only the first, carries the CA bundle read from
    the secret, the path of the controller in its service, the one rule for
    the creation of pods, the reinvocation policy [IfNeeded], and as namespace
    selector the merge of the selector it had with the exclusion selector. *)
Theorem desiredRegistration_written
    (E : option LabelSelector -> option LabelSelector -> option LabelSelector)
    (ac : reconciler) (caCert : option (list Z)) (ns : Namespace)
    (c d : MutatingWebhookConfiguration) :
  desiredRegistration E ac caCert ns c = Ok d ->
  Forall2 (fun wh wh' =>
             wh_Name wh = mwc_Name c ->
             cc_CABundle (wh_ClientConfig wh') = caCert
             /\ (exists service, cc_Service (wh_ClientConfig wh') = Some service
                                 /\ svc_Path service = Some (Path ac))
             /\ wh_Rules wh'
                = [ {| rwo_Operations := [Create];
                       rwo_Rule := {| rule_APIGroups := [""%string];
                                      rule_APIVersions := ["v1"%string];
                                      rule_Resources := ["pods"%string];
                                      rule_Scope := None |} |} ]
             /\ wh_NamespaceSelector wh'
                = E (wh_NamespaceSelector wh) (Some excludeSelector)
             /\ wh_ReinvocationPolicy wh' = Some IfNeededReinvocationPolicy)
    (mwc_Webhooks c) (mwc_Webhooks d).
Proof.
  unfold desiredRegistration. cbv zeta.
  destruct (reconcileEntries E ac caCert _ _) as [whs|] eqn:Hw; [|discriminate].
  intros [= <-]. apply (reconcileEntries_written _ _ _ _ _ _ Hw).
Qed.

Lemma desiredRegistration_written_witness :
  exists d,
    desiredRegistration EnsureLabelSelectorExpressions_spec sampleReconciler (Some [4; 5; 6])
      sampleNamespace (sampleRegistration (Some sampleService)) = Ok d
    /\ length (mwc_Webhooks d) = 1%nat.
Proof.
  eexists. split; [vm_compute; reflexivity|].
  match goal with
  | |- length (mwc_Webhooks ?d) = _ =>
      pose proof (desiredRegistration_written EnsureLabelSelectorExpressions_spec
                    sampleReconciler (Some [4; 5; 6]) sampleNamespace
                    (sampleRegistration (Some sampleService)) d eq_refl) as Hf
  end.
  apply Forall2_length in Hf. symmetry. exact Hf.
Defined.
